(** * Knowledge extraction and chunking: a shallow embedding

    The extractor ([src/core/knowledge-extractor.ts]) and the chunker of the
    RAG engine ([src/core/rag-engine.ts]) are translated function by function.
    JavaScript strings are sequences of UTF-16 code units; regular expressions
    are run by a backtracking matcher that follows the priority order of
    ECMAScript's pattern semantics (first alternative first, greedy quantifiers
    longest first, lazy quantifiers shortest first). *)

From Stdlib Require Import String Ascii DecimalString.
From Stdlib Require DecimalN.
From Stdlib Require Import List NArith Bool Arith Lia.
Import ListNotations.

Set Implicit Arguments.

(** ** Strings *)

Module JsString.

(** A UTF-16 code unit. *)
Definition char := N.

Definition jsstring := list char.

(** An ASCII literal as a JavaScript string. *)
Definition js (s : string) : jsstring :=
  List.map N_of_ascii (list_ascii_of_string s).

Definition chr (a : ascii) : char := N_of_ascii a.

Definition eqc (a b : char) : bool := N.eqb a b.

Fixpoint eqs (a b : jsstring) : bool :=
  match a, b with
  | [], [] => true
  | x :: a', y :: b' => eqc x y && eqs a' b'
  | _, _ => false
  end.

Definition mem (x : char) (l : list char) : bool := existsb (eqc x) l.

(** WhiteSpace and LineTerminator code points: what [\s] matches and what
    [String.prototype.trim] strips. *)
Definition is_space (c : char) : bool :=
  mem c [9; 10; 11; 12; 13; 32; 160; 5760; 8232; 8233; 8239; 8287; 12288; 65279]%N
  || (N.leb 8192%N c && N.leb c 8202%N).

(** LineTerminator: what [.] does not match. *)
Definition is_line_terminator (c : char) : bool :=
  mem c [10; 13; 8232; 8233]%N.

Definition is_digit (c : char) : bool := N.leb 48%N c && N.leb c 57%N.
Definition is_upper (c : char) : bool := N.leb 65%N c && N.leb c 90%N.
Definition is_lower (c : char) : bool := N.leb 97%N c && N.leb c 122%N.
Definition is_alnum (c : char) : bool := is_digit c || is_upper c || is_lower c.

(** [\w] *)
Definition is_word (c : char) : bool := is_alnum c || eqc c 95%N.

Fixpoint dropWhile (p : char -> bool) (s : jsstring) : jsstring :=
  match s with
  | [] => []
  | x :: s' => if p x then dropWhile p s' else s
  end.

Definition trimStart (s : jsstring) : jsstring := dropWhile is_space s.
Definition trimEnd (s : jsstring) : jsstring := rev (dropWhile is_space (rev s)).

(** [String.prototype.trim] *)
Definition trim (s : jsstring) : jsstring := trimEnd (trimStart s).

(** [s.startsWith(p)]; on success the text after the prefix. *)
Fixpoint strip (p s : jsstring) : option jsstring :=
  match p, s with
  | [], _ => Some s
  | x :: p', y :: s' => if eqc x y then strip p' s' else None
  | _ :: _, [] => None
  end.

Definition startsWith (s p : jsstring) : bool :=
  match strip p s with Some _ => true | None => false end.

(** [s.includes(p)] *)
Fixpoint includes (s p : jsstring) : bool :=
  startsWith s p ||
  match s with
  | [] => false
  | _ :: s' => includes s' p
  end.

Definition endsWith (s p : jsstring) : bool := startsWith (rev s) (rev p).

(** [s.split('\n')] *)
Fixpoint split_lines (s : jsstring) : list jsstring :=
  match s with
  | [] => [[]]
  | x :: s' =>
      if eqc x 10%N then [] :: split_lines s'
      else match split_lines s' with
           | l :: ls => (x :: l) :: ls
           | [] => [[x]]
           end
  end.

(** [parts.join(sep)] on an array of strings. *)
Fixpoint join (sep : jsstring) (parts : list jsstring) : jsstring :=
  match parts with
  | [] => []
  | [p] => p
  | p :: ps => p ++ sep ++ join sep ps
  end.

(** [s.substring(0, n)] *)
Definition substring0 (n : nat) (s : jsstring) : jsstring := firstn n s.

(** [s.substring(n)] *)
Definition substringFrom (n : nat) (s : jsstring) : jsstring := skipn n s.

(** [String(n)] for a non-negative integer. *)
Definition ofNumber (n : N) : jsstring :=
  js (NilEmpty.string_of_uint (N.to_uint n)).

(** [[...new Set(xs)]]: the first occurrence of each element, in order. *)
Fixpoint uniq_by {A} (eq : A -> A -> bool) (seen xs : list A) : list A :=
  match xs with
  | [] => []
  | x :: xs' =>
      if existsb (eq x) seen then uniq_by eq seen xs'
      else x :: uniq_by eq (x :: seen) xs'
  end.

End JsString.

Import JsString.

(** ** Exceptions *)

Inductive error : Type :=
| SyntaxError
| TypeError.

Inductive result (A : Type) : Type :=
| Ok (a : A)
| Throw (e : error).

Arguments Ok {A} a.
Arguments Throw {A} e.

Definition bind {A B} (m : result A) (f : A -> result B) : result B :=
  match m with
  | Ok a => f a
  | Throw e => Throw e
  end.

Notation "x <- m ;; k" := (bind m (fun x => k))
  (at level 61, m at next level, right associativity).

(** ** Regular expressions *)

Module RegExp.

(** The constructs the program's patterns use.  [Group i r] is the [i]-th
    capturing group.  None of the patterns below has an assertion, a back
    reference or a group under a quantifier. *)
Inductive regex : Type :=
| Eps
| Class (p : char -> bool)
| Seq (a b : regex)
| Alt (a b : regex)
| Star (greedy : bool) (a : regex)
| Group (i : nat) (a : regex).

Definition Chr (c : char) : regex := Class (eqc c).
Definition Plus (greedy : bool) (a : regex) : regex := Seq a (Star greedy a).
Definition Opt (a : regex) : regex := Alt a Eps.

(** A literal run of characters. *)
Fixpoint lit (s : jsstring) : regex :=
  match s with
  | [] => Eps
  | x :: s' => Seq (Chr x) (lit s')
  end.

Fixpoint seqs (rs : list regex) : regex :=
  match rs with
  | [] => Eps
  | [r] => r
  | r :: rs' => Seq r (seqs rs')
  end.

Definition any : char -> bool := fun _ => true.
Definition dot : char -> bool := fun c => negb (is_line_terminator c).
Definition oneOf (l : list char) : char -> bool := fun c => mem c l.
Definition noneOf (l : list char) : char -> bool := fun c => negb (mem c l).
Definition nonspace : char -> bool := fun c => negb (is_space c).

(** Captures, most recent first: [(i, text)] records that group [i] matched
    [text]. *)
Definition caps := list (nat * jsstring).

Fixpoint capture (i : nat) (c : caps) : option jsstring :=
  match c with
  | [] => None
  | (j, w) :: c' => if Nat.eqb i j then Some w else capture i c'
  end.

(** A matcher state is the unread input and the captures; a continuation
    decides whether the rest of the pattern matches from a state. *)
Definition outcome := (jsstring * caps)%type.
Definition cont := jsstring -> caps -> option outcome.

(** The quantifier loop.  An iteration that reads nothing is rejected, as in
    RepeatMatcher, so [fuel = length s] iterations are never exceeded. *)
Fixpoint star_loop (greedy : bool) (body : cont -> cont) (fuel : nat)
    (k : cont) (s : jsstring) (c : caps) : option outcome :=
  match fuel with
  | O => k s c
  | S fuel' =>
      let again :=
        body (fun s' c' =>
                if Nat.ltb (length s') (length s)
                then star_loop greedy body fuel' k s' c'
                else None) s c in
      if greedy
      then match again with Some o => Some o | None => k s c end
      else match k s c with Some o => Some o | None => again end
  end.

Fixpoint rmatch (r : regex) (k : cont) (s : jsstring) (c : caps)
    : option outcome :=
  match r with
  | Eps => k s c
  | Class p =>
      match s with
      | x :: s' => if p x then k s' c else None
      | [] => None
      end
  | Seq a b => rmatch a (rmatch b k) s c
  | Alt a b =>
      match rmatch a k s c with
      | Some o => Some o
      | None => rmatch b k s c
      end
  | Star g a => star_loop g (rmatch a) (length s) k s c
  | Group i a =>
      rmatch a (fun s' c' =>
                  k s' ((i, firstn (length s - length s') s) :: c')) s c
  end.

Definition accept : cont := fun s c => Some (s, c).

(** A match that starts at the first character of [s]. *)
Definition exec_at (r : regex) (s : jsstring) : option outcome :=
  rmatch r accept s [].

(** The result of a search: the text skipped before the match, the text after
    it, whether the match was empty, and the captures. *)
Record found : Type := Found {
  pre : jsstring;
  rest : jsstring;
  empty : bool;
  groups : caps
}.

(** The leftmost match at or after the start of [s]. *)
Fixpoint search (r : regex) (s : jsstring) : option found :=
  match exec_at r s with
  | Some (s', c) => Some (Found [] s' (Nat.eqb (length s') (length s)) c)
  | None =>
      match s with
      | [] => None
      | x :: t =>
          match search r t with
          | Some m => Some (Found (x :: pre m) (rest m) (empty m) (groups m))
          | None => None
          end
      end
  end.

(** [re.test(s)] *)
Definition test (r : regex) (s : jsstring) : bool :=
  match search r s with Some _ => true | None => false end.

(** Where the scan of a global pattern resumes: after the match, one
    character further when the match was empty. *)
Definition resume (m : found) : option jsstring :=
  if empty m
  then match rest m with [] => None | _ :: t => Some t end
  else Some (rest m).

Fixpoint matchAll_from (fuel : nat) (r : regex) (s : jsstring) : list found :=
  match fuel with
  | O => []
  | S fuel' =>
      match search r s with
      | None => []
      | Some m =>
          m :: match resume m with
               | Some t => matchAll_from fuel' r t
               | None => []
               end
      end
  end.

(** [s.matchAll(re)] and [s.match(re)] for a pattern with the [g] flag. *)
Definition matchAll (r : regex) (s : jsstring) : list found :=
  matchAll_from (S (length s)) r s.

(** [s.replace(re, by)] for a pattern with the [g] flag and a replacement
    text without [$]. *)
Fixpoint replaceAll_from (fuel : nat) (r : regex) (by_ s : jsstring)
    : jsstring :=
  match fuel with
  | O => s
  | S fuel' =>
      match search r s with
      | None => s
      | Some m =>
          pre m ++ by_ ++
          (if empty m
           then match rest m with
                | [] => []
                | x :: t => x :: replaceAll_from fuel' r by_ t
                end
           else replaceAll_from fuel' r by_ (rest m))
      end
  end.

Definition replaceAll (r : regex) (by_ s : jsstring) : jsstring :=
  replaceAll_from (S (length s)) r by_ s.

(** *** [new RegExp(source, flags)]

    The constructor is modelled on the fragment the program builds sources
    in: literal characters, [.], a bracketed class of plain characters
    (optionally negated), each optionally followed by [*].  With
    [ignoreCase] the source must be ASCII, where Canonicalize is ASCII upper
    casing.  Any other source is reported as a SyntaxError. *)

Definition upcase (c : char) : char :=
  if is_lower c then (c - 32)%N else c.

Definition is_ascii (c : char) : bool := N.ltb c 128%N.

Definition syntax_char (c : char) : bool :=
  mem c (js "^$\.*+?()[]{}|").

Definition atom_char (ignoreCase : bool) (x : char) : option regex :=
  if syntax_char x then None
  else if ignoreCase
       then if is_ascii x
            then Some (Class (fun c => eqc (upcase c) (upcase x)))
            else None
       else Some (Chr x).

(** The members of a class up to the closing bracket, and the text after
    it. *)
Fixpoint class_members (s : jsstring) : option (list char * jsstring) :=
  match s with
  | [] => None
  | x :: s' =>
      if eqc x (chr "]") then Some ([], s')
      else if mem x (js "\-[") then None
      else match class_members s' with
           | Some (ms, t) => Some (x :: ms, t)
           | None => None
           end
  end.

Definition class_pred (ignoreCase negated : bool) (ms : list char)
    : char -> bool :=
  fun c =>
    let hit := if ignoreCase
               then mem (upcase c) (List.map upcase ms)
               else mem c ms in
    if negated then negb hit else hit.

(** One atom at the head of the source, and the text after it. *)
Definition parse_atom (ignoreCase : bool) (s : jsstring)
    : option (regex * jsstring) :=
  match s with
  | [] => None
  | x :: s' =>
      if eqc x (chr ".") then Some (Class dot, s')
      else if eqc x (chr "[") then
        let (negated, body) :=
          match s' with
          | y :: s'' => if eqc y (chr "^") then (true, s'') else (false, s')
          | [] => (false, s')
          end in
        match class_members body with
        | Some (ms, t) =>
            if ignoreCase && negb (forallb is_ascii ms) then None
            else Some (Class (class_pred ignoreCase negated ms), t)
        | None => None
        end
      else match atom_char ignoreCase x with
           | Some r => Some (r, s')
           | None => None
           end
  end.

Fixpoint parse_terms (fuel : nat) (ignoreCase : bool) (s : jsstring)
    : option regex :=
  match fuel with
  | O => None
  | S fuel' =>
      match s with
      | [] => Some Eps
      | _ =>
          match parse_atom ignoreCase s with
          | None => None
          | Some (a, t) =>
              let (term, t') :=
                match t with
                | y :: t1 => if eqc y (chr "*") then (Star true a, t1)
                             else (a, t)
                | [] => (a, t)
                end in
              match parse_terms fuel' ignoreCase t' with
              | Some r => Some (Seq term r)
              | None => None
              end
          end
      end
  end.

Definition construct (source : jsstring) (ignoreCase : bool) : result regex :=
  match parse_terms (S (length source)) ignoreCase source with
  | Some r => Ok r
  | None => Throw SyntaxError
  end.

End RegExp.

Import RegExp.

(** ** The knowledge extractor *)

Record LanguageConfig : Type := {
  extensions : list jsstring;
  commentPatterns : list jsstring;
  importPatterns : list jsstring;
  functionPatterns : list jsstring;
  classPatterns : list jsstring
}.

Record ExtractionConfig : Type := {
  includePatterns : list jsstring;
  excludePatterns : list jsstring;
  languageConfigs : list (jsstring * LanguageConfig)
}.

(** The configuration the constructor installs. *)
Definition defaultConfig : ExtractionConfig := {|
  includePatterns := List.map js [
    "**/*.js"; "**/*.jsx"; "**/*.ts"; "**/*.tsx";
    "**/*.py"; "**/*.java"; "**/*.go"; "**/*.rs";
    "**/*.cpp"; "**/*.c"; "**/*.h"; "**/*.hpp";
    "**/*.php"; "**/*.rb"; "**/*.swift"; "**/*.kt";
    "**/*.md"; "**/*.yaml"; "**/*.yml"; "**/*.json";
    "**/*.sql"; "**/*.sh"; "**/*.dockerfile";
    "**/README*"; "**/CHANGELOG*"; "**/API*"
  ]%string;
  excludePatterns := List.map js [
    "**/node_modules/**";
    "**/dist/**";
    "**/build/**";
    "**/.git/**";
    "**/coverage/**";
    "**/*.min.js";
    "**/*.bundle.js";
    "**/vendor/**";
    "**/third_party/**"
  ]%string;
  languageConfigs := [
    (js "javascript",
     {| extensions := List.map js [".js"; ".jsx"]%string;
        commentPatterns := List.map js ["//"; "/*"; "*/"; "/**"]%string;
        importPatterns := List.map js ["import"; "require"; "from"]%string;
        functionPatterns :=
          List.map js ["function"; "=>"; "async function"]%string;
        classPatterns := List.map js ["class"; "extends"]%string |});
    (js "typescript",
     {| extensions := List.map js [".ts"; ".tsx"]%string;
        commentPatterns := List.map js ["//"; "/*"; "*/"; "/**"]%string;
        importPatterns := List.map js ["import"; "require"; "from"]%string;
        functionPatterns :=
          List.map js ["function"; "=>"; "async function"]%string;
        classPatterns :=
          List.map js ["class"; "extends"; "interface"; "type"]%string |});
    (js "python",
     {| extensions := [js ".py"];
        commentPatterns := [js "#"; [34; 34; 34]%N; js "'''"];
        importPatterns := List.map js ["import"; "from"]%string;
        functionPatterns := List.map js ["def "; "async def"]%string;
        classPatterns := [js "class "] |});
    (js "markdown",
     {| extensions := [js ".md"];
        commentPatterns := List.map js ["<!--"; "-->"]%string;
        importPatterns := [];
        functionPatterns := [];
        classPatterns := [] |})
  ]
|}.

(** The regular-expression source [matchesPattern] derives from a glob by
    its three global replacements. *)
Definition regexPattern (pattern : jsstring) : jsstring :=
  replaceAll (lit (js "?")) (js ".")
    (replaceAll (lit (js "*")) (js "[^/]*")
       (replaceAll (lit (js "**")) (js ".*") pattern)).

Definition matchesPattern (filePath pattern : jsstring) : result bool :=
  re <- construct (regexPattern pattern) false ;;
  Ok (test re filePath).

(** One of the two [for] loops of [shouldProcessFile]: whether some pattern
    of the list matches, stopping at the first that does. *)
Fixpoint matchesAny (filePath : jsstring) (patterns : list jsstring)
    : result bool :=
  match patterns with
  | [] => Ok false
  | pattern :: more =>
      hit <- matchesPattern filePath pattern ;;
      if hit then Ok true else matchesAny filePath more
  end.

Definition shouldProcessFile (config : ExtractionConfig) (filePath : jsstring)
    : result bool :=
  excluded <- matchesAny filePath (excludePatterns config) ;;
  if excluded then Ok false
  else
    included <- matchesAny filePath (includePatterns config) ;;
    if included then Ok true else Ok false.

(** A value of type [string | undefined]: a capture group that took no part
    in the match is [undefined]. *)
Definition jsv := option jsstring.

(** Truthiness: [undefined], [null] and the empty string are falsy. *)
Definition truthy (v : jsv) : bool :=
  match v with
  | Some (_ :: _) => true
  | _ => false
  end.

(** [a || b] *)
Definition orElse (a b : jsv) : jsv := if truthy a then a else b.

(** A value inside a template literal. *)
Definition toStr (v : jsv) : jsstring :=
  match v with
  | Some s => s
  | None => js "undefined"
  end.

(** [Array.prototype.join]: an [undefined] element is joined as the empty
    string. *)
Definition joinv (sep : jsstring) (vs : list jsv) : jsstring :=
  join sep (List.map (fun v => match v with Some s => s | None => [] end) vs).

Definition eqv (a b : jsv) : bool :=
  match a, b with
  | Some x, Some y => eqs x y
  | None, None => true
  | _, _ => false
  end.

Definition nl : jsstring := [10%N].

(** The [i]-th capture of every match, in match order. *)
Definition captures (i : nat) (ms : list found) : list jsv :=
  List.map (fun m => capture i (groups m)) ms.

(** *** The patterns of the analyzer *)

Module Patterns.

Definition ws : regex := Class is_space.
Definition word : regex := Class is_word.

(** The single quote, the double quote and the backtick. *)
Definition quotes : list char := [39; 34; 96]%N.

(** [/import.*?from\s+[q]([^q]+)[q]/g], where [q] stands for the three
    quote characters (single, double, backtick) *)
Definition jsImport : regex :=
  seqs [lit (js "import"); Star false (Class dot); lit (js "from");
        Plus true ws; Class (oneOf quotes);
        Group 1 (Plus true (Class (noneOf quotes)));
        Class (oneOf quotes)].

(** [/(?:from\s+(\S+)\s+import|import\s+(\S+))/g] *)
Definition pythonImport : regex :=
  Alt (seqs [lit (js "from"); Plus true ws;
             Group 1 (Plus true (Class nonspace));
             Plus true ws; lit (js "import")])
      (seqs [lit (js "import"); Plus true ws;
             Group 2 (Plus true (Class nonspace))]).

(** [/import\s+([\w.]+);/g] *)
Definition javaImport : regex :=
  seqs [lit (js "import"); Plus true ws;
        Group 1 (Plus true (Class (fun c => is_word c || eqc c (chr "."))));
        Chr (chr ";")].

(** [/export\s+(?:default\s+)?(?:function\s+|class\s+|const\s+|let\s+|var\s+)?(\w+)/g] *)
Definition exportDecl : regex :=
  seqs [lit (js "export"); Plus true ws;
        Opt (Seq (lit (js "default")) (Plus true ws));
        Opt (Alt (Seq (lit (js "function")) (Plus true ws))
            (Alt (Seq (lit (js "class")) (Plus true ws))
            (Alt (Seq (lit (js "const")) (Plus true ws))
            (Alt (Seq (lit (js "let")) (Plus true ws))
                 (Seq (lit (js "var")) (Plus true ws))))));
        Group 1 (Plus true word)].

Definition asyncOpt : regex := Opt (Seq (lit (js "async")) (Plus true ws)).

(** [\([^)]*\)] *)
Definition parenthesised : regex :=
  seqs [Chr (chr "("); Star true (Class (noneOf (js ")")));
        Chr (chr ")")].

(** [/(?:function\s+(\w+)|(\w+)\s*=\s*(?:async\s+)?(?:\([^)]*\)|\w+)\s*=>|(\w+):\s*(?:async\s+)?\([^)]*\)\s*=>)/g] *)
Definition jsFunction : regex :=
  Alt (seqs [lit (js "function"); Plus true ws; Group 1 (Plus true word)])
 (Alt (seqs [Group 2 (Plus true word); Star true ws; Chr (chr "=");
             Star true ws; asyncOpt; Alt parenthesised (Plus true word);
             Star true ws; lit (js "=>")])
      (seqs [Group 3 (Plus true word); Chr (chr ":"); Star true ws;
             asyncOpt; parenthesised; Star true ws; lit (js "=>")])).

(** [/def\s+(\w+)\s*\(/g] *)
Definition pyFunction : regex :=
  seqs [lit (js "def"); Plus true ws; Group 1 (Plus true word);
        Star true ws; Chr (chr "(")].

(** [/class\s+(\w+)/g] *)
Definition classDecl : regex :=
  seqs [lit (js "class"); Plus true ws; Group 1 (Plus true word)].

(** [/\/\*\*?([\s\S]*?)\*\//] *)
Definition blockComment : regex :=
  seqs [lit (js "/*"); Opt (Chr (chr "*"));
        Group 1 (Star false (Class any)); lit (js "*/")].

(** [/\n\s*\*/g] *)
Definition continuationStar : regex :=
  seqs [Chr 10%N; Star true ws; Chr (chr "*")].

(** [/kw\s*\(/g] for a keyword [kw] *)
Definition keywordParen (kw : jsstring) : regex :=
  Seq (lit kw) (Seq (Star true ws) (Chr (chr "("))).

(** [/&&|\|\|/g] *)
Definition logicalOp : regex := Alt (lit (js "&&")) (lit (js "||")).

(** [/[^a-zA-Z0-9]/g] *)
Definition nonAlnum : regex := Class (fun c => negb (is_alnum c)).

End Patterns.

(** *** Records *)

Module FileInfo.
Record t (Date : Type) : Type := {
  repository : jsstring;
  filePath : jsstring;
  content : jsstring;
  lastModified : Date
}.
End FileInfo.

(** The object [analyzeContent] builds. *)
Module Analysis.
Record t : Type := {
  language : jsstring;
  framework : jsv;
  dependencies : list jsv;
  imports : list jsv;
  exports : list jsv;
  functions : list jsv;
  classes : list jsv;
  mainFunction : jsv;
  mainClass : jsv;
  summary : jsstring;
  complexity : nat
}.
End Analysis.

Module Metadata.
Record t (Date : Type) : Type := {
  repository : jsstring;
  filePath : jsstring;
  fileType : jsstring;
  lastModified : Date;
  contentHash : jsstring;
  tags : list jsstring;
  language : jsstring;
  framework : jsv;
  dependencies : list jsv
}.
End Metadata.

Module KnowledgeItem.
Record t (Date : Type) : Type := {
  id : jsstring;
  title : jsstring;
  content : jsstring;
  metadata : Metadata.t Date
}.
End KnowledgeItem.

(** What the extractor calls but the repository does not define: Node's
    [crypto] digest, Node's [path] functions and the Unicode lower-casing
    of the language. *)
Record Host : Type := {
  md5hex : jsstring -> jsstring;
  basename : jsstring -> jsstring;
  extname : jsstring -> jsstring;
  toLowerCase : jsstring -> jsstring
}.

(** *** Identity *)

Definition generateId (repository filePath : jsstring) : jsstring :=
  let cleanRepo := replaceAll Patterns.nonAlnum (js "_") repository in
  let cleanPath := replaceAll Patterns.nonAlnum (js "_") filePath in
  cleanRepo ++ js "_" ++ cleanPath.

(** *** Content analysis *)

Definition getLanguage (fileType : jsstring) : jsstring := fileType.

Definition frameworks : list (jsstring * list jsstring) :=
  List.map (fun f => (js (fst f), List.map js (snd f))) [
    ("React", ["import.*react"; "from.*react"; "useState"; "useEffect"]);
    ("Vue", ["import.*vue"; "from.*vue"; "createApp"; "defineComponent"]);
    ("Angular", ["@angular"; "@Component"; "@Injectable"]);
    ("Express", ["express"; "app.get"; "app.post"; "router"]);
    ("Next.js", ["next/"; "getServerSideProps"; "getStaticProps"]);
    ("Django", ["django"; "models.Model"; "views."]);
    ("Flask", ["flask"; "app.route"; "@app.route"]);
    ("Spring", ["@SpringBootApplication"; "@RestController"; "@Service"])
  ]%string.

(** The inner loop of [detectFramework]: whether a signature of the list
    is found in the content. *)
Fixpoint signatureFires (content : jsstring) (patterns : list jsstring)
    : result bool :=
  match patterns with
  | [] => Ok false
  | pattern :: more =>
      re <- construct pattern true ;;
      if test re content then Ok true else signatureFires content more
  end.

(** The outer loop of [detectFramework]. *)
Fixpoint detectFrameworkIn (content : jsstring)
    (table : list (jsstring * list jsstring)) : result jsv :=
  match table with
  | [] => Ok None
  | (name, patterns) :: more =>
      hit <- signatureFires content patterns ;;
      if hit then Ok (Some name) else detectFrameworkIn content more
  end.

Definition detectFramework (content : jsstring) : result jsv :=
  detectFrameworkIn content frameworks.

Definition extractDependencies (content : jsstring) : list jsv :=
  let importMatches := matchAll Patterns.jsImport content in
  let pythonImports := matchAll Patterns.pythonImport content in
  let javaImports := matchAll Patterns.javaImport content in
  let dependencies :=
    captures 1 importMatches ++
    List.map (fun m => orElse (capture 1 (groups m)) (capture 2 (groups m)))
             pythonImports ++
    captures 1 javaImports in
  uniq_by eqv [] dependencies.

Definition extractImports (content : jsstring) : list jsv :=
  extractDependencies content.

Definition extractExports (content : jsstring) : list jsv :=
  captures 1 (matchAll Patterns.exportDecl content).

Definition extractFunctions (content : jsstring) : list jsv :=
  let jsFunctions := matchAll Patterns.jsFunction content in
  let pyFunctions := matchAll Patterns.pyFunction content in
  List.filter truthy
    (List.map (fun m => orElse (orElse (capture 1 (groups m))
                                       (capture 2 (groups m)))
                               (capture 3 (groups m)))
              jsFunctions) ++
  captures 1 pyFunctions.

Definition extractClasses (content : jsstring) : list jsv :=
  let jsClasses := matchAll Patterns.classDecl content in
  let pyClasses := matchAll Patterns.classDecl content in
  captures 1 jsClasses ++ captures 1 pyClasses.

(** The loop of [extractFirstComment] over the lines: the comment lines at
    the top, up to the first line that is neither a comment nor blank. *)
Fixpoint commentLines (lines : list jsstring) : list jsstring :=
  match lines with
  | [] => []
  | line :: more =>
      let trimmed := trim line in
      if startsWith trimmed (js "//")
      then trim (substringFrom 2 trimmed) :: commentLines more
      else if startsWith trimmed (js "#")
      then trim (substringFrom 1 trimmed) :: commentLines more
      else if Nat.ltb 0 (length trimmed) then []
      else commentLines more
  end.

(** [null] is [None]; reading [replace] off an [undefined] capture is a
    TypeError. *)
Definition extractFirstComment (content : jsstring) : result jsv :=
  match search Patterns.blockComment content with
  | Some multilineMatch =>
      match capture 1 (groups multilineMatch) with
      | Some body =>
          Ok (Some (trim (replaceAll Patterns.continuationStar nl body)))
      | None => Throw TypeError
      end
  | None =>
      let lines := split_lines content in
      match commentLines lines with
      | [] => Ok None
      | found => Ok (Some (join (js " ") found))
      end
  end.

Definition generateSummary (content : jsstring) : result jsstring :=
  let lines := split_lines content in
  firstComment <- extractFirstComment content ;;
  match firstComment with
  | Some (x :: comment) => Ok (x :: comment)
  | _ =>
      let nonEmptyLines :=
        List.filter (fun line => Nat.ltb 0 (length (trim line))) lines in
      Ok (substring0 200 (join (js " ") (firstn 3 nonEmptyLines)))
  end.

(** [(content.match(re) || []).length] for a global pattern *)
Definition occurrences (r : regex) (content : jsstring) : nat :=
  length (matchAll r content).

Definition calculateComplexity (content : jsstring) : nat :=
  occurrences (Patterns.keywordParen (js "if")) content
  + occurrences (Patterns.keywordParen (js "for")) content
  + occurrences (Patterns.keywordParen (js "while")) content
  + occurrences (Patterns.keywordParen (js "switch")) content
  + occurrences (Patterns.keywordParen (js "catch")) content
  + occurrences Patterns.logicalOp content.

Definition analyzeContent (content fileType : jsstring) : result Analysis.t :=
  framework <- detectFramework content ;;
  let functions := extractFunctions content in
  let classes := extractClasses content in
  summary <- generateSummary content ;;
  Ok {| Analysis.language := getLanguage fileType;
        Analysis.framework := framework;
        Analysis.dependencies := extractDependencies content;
        Analysis.imports := extractImports content;
        Analysis.exports := extractExports content;
        Analysis.functions := functions;
        Analysis.classes := classes;
        Analysis.mainFunction :=
          match functions with [] => None | f :: _ => f end;
        Analysis.mainClass :=
          match classes with [] => None | c :: _ => c end;
        Analysis.summary := summary;
        Analysis.complexity := calculateComplexity content |}.

(** *** Tags and content body *)

Definition tagIf (b : bool) (tag : string) : list jsstring :=
  if b then [js tag] else [].

(** The [forEach] over the dependencies: [dep.includes] on an [undefined]
    element is a TypeError. *)
Fixpoint dependencyTags (deps : list jsv) : result (list jsstring) :=
  match deps with
  | [] => Ok []
  | None :: _ => Throw TypeError
  | Some dep :: more =>
      let here :=
        tagIf (includes dep (js "react")) "react" ++
        tagIf (includes dep (js "express")) "express" ++
        tagIf (includes dep (js "typescript")) "typescript" in
      later <- dependencyTags more ;;
      Ok (here ++ later)
  end.

Definition generateTags (filePath : jsstring) (analysis : Analysis.t)
    : result (list jsstring) :=
  let fileTags :=
    tagIf (includes filePath (js "test")) "test" ++
    tagIf (includes filePath (js "api")) "api" ++
    tagIf (includes filePath (js "component")) "component" ++
    tagIf (includes filePath (js "util")) "utility" ++
    tagIf (includes filePath (js "config")) "configuration" ++
    tagIf (includes filePath (js "service")) "service" ++
    tagIf (includes filePath (js "model")) "model" ++
    tagIf (includes filePath (js "controller")) "controller" in
  let languageTags :=
    (if truthy (Some (Analysis.language analysis))
     then [Analysis.language analysis] else []) ++
    (if truthy (Analysis.framework analysis)
     then [toStr (Analysis.framework analysis)] else []) in
  let contentTags :=
    tagIf (Nat.ltb 0 (length (Analysis.functions analysis))) "functions" ++
    tagIf (Nat.ltb 0 (length (Analysis.classes analysis))) "classes" ++
    tagIf (Nat.ltb 10 (Analysis.complexity analysis)) "complex" ++
    tagIf (Nat.leb (Analysis.complexity analysis) 3) "simple" in
  depTags <- dependencyTags (Analysis.dependencies analysis) ;;
  Ok (uniq_by eqs [] (fileTags ++ languageTags ++ contentTags ++ depTags)).

(** The template literal of [prepareContent], before [trim]. *)
Definition contentTemplate (content : jsstring) (analysis : Analysis.t)
    (filePath : jsstring) : jsstring :=
  nl ++ js "File: " ++ filePath ++
  nl ++ js "Language: " ++ Analysis.language analysis ++
  nl ++ js "Framework: " ++
     toStr (orElse (Analysis.framework analysis) (Some (js "None"))) ++
  nl ++
  nl ++ js "Summary: " ++ Analysis.summary analysis ++
  nl ++
  nl ++ js "Dependencies:" ++
  nl ++ join nl (List.map (fun dep => js "- " ++ toStr dep)
                          (Analysis.dependencies analysis)) ++
  nl ++
  nl ++ js "Functions: " ++ joinv (js ", ") (Analysis.functions analysis) ++
  nl ++ js "Classes: " ++ joinv (js ", ") (Analysis.classes analysis) ++
  nl ++ js "Complexity: " ++ ofNumber (N.of_nat (Analysis.complexity analysis)) ++
  nl ++
  nl ++ js "Content:" ++
  nl ++ content ++
  nl ++ js "    ".

Definition prepareContent (content : jsstring) (analysis : Analysis.t)
    (filePath : jsstring) : jsstring :=
  trim (contentTemplate content analysis filePath).

(** *** The builder *)

Section Builder.

Variable Date : Type.
Variable host : Host.

Definition generateTitle (filePath : jsstring) (analysis : Analysis.t)
    : jsstring :=
  let fileName := basename host filePath in
  if truthy (Analysis.mainFunction analysis)
  then fileName ++ js " - " ++ toStr (Analysis.mainFunction analysis)
  else if truthy (Analysis.mainClass analysis)
  then fileName ++ js " - " ++ toStr (Analysis.mainClass analysis)
  else if Nat.ltb 0 (length (Analysis.exports analysis))
  then fileName ++ js " - " ++
       joinv (js ", ") (firstn 2 (Analysis.exports analysis))
  else fileName.

Definition typeMap : list (jsstring * jsstring) :=
  List.map (fun e => (js (fst e), js (snd e))) [
    (".js", "javascript");
    (".jsx", "javascript");
    (".ts", "typescript");
    (".tsx", "typescript");
    (".py", "python");
    (".java", "java");
    (".go", "go");
    (".rs", "rust");
    (".cpp", "cpp");
    (".c", "c");
    (".php", "php");
    (".rb", "ruby");
    (".swift", "swift");
    (".kt", "kotlin");
    (".md", "markdown");
    (".yaml", "yaml");
    (".yml", "yaml");
    (".json", "json");
    (".sql", "sql");
    (".sh", "shell")
  ]%string.

Fixpoint lookup (key : jsstring) (table : list (jsstring * jsstring)) : jsv :=
  match table with
  | [] => None
  | (k, v) :: more => if eqs key k then Some v else lookup key more
  end.

(** The extension [extname] returns is empty or starts with a dot, so the
    lookup only ever reaches the table's own entries. *)
Definition getFileType (filePath : jsstring) : jsstring :=
  let ext := toLowerCase host (extname host filePath) in
  toStr (orElse (lookup ext typeMap) (Some (js "unknown"))).

(** [null] is [None]. *)
Definition extractKnowledge (fileInfo : FileInfo.t Date)
    : result (option (KnowledgeItem.t Date)) :=
  eligible <- shouldProcessFile defaultConfig (FileInfo.filePath fileInfo) ;;
  if negb eligible then Ok None
  else
    let contentHash := md5hex host (FileInfo.content fileInfo) in
    let fileType := getFileType (FileInfo.filePath fileInfo) in
    analysis <- analyzeContent (FileInfo.content fileInfo) fileType ;;
    let id := generateId (FileInfo.repository fileInfo)
                         (FileInfo.filePath fileInfo) in
    let title := generateTitle (FileInfo.filePath fileInfo) analysis in
    let content := prepareContent (FileInfo.content fileInfo) analysis
                                  (FileInfo.filePath fileInfo) in
    tags <- generateTags (FileInfo.filePath fileInfo) analysis ;;
    Ok (Some {|
      KnowledgeItem.id := id;
      KnowledgeItem.title := title;
      KnowledgeItem.content := content;
      KnowledgeItem.metadata := {|
        Metadata.repository := FileInfo.repository fileInfo;
        Metadata.filePath := FileInfo.filePath fileInfo;
        Metadata.fileType := fileType;
        Metadata.lastModified := FileInfo.lastModified fileInfo;
        Metadata.contentHash := contentHash;
        Metadata.tags := tags;
        Metadata.language := Analysis.language analysis;
        Metadata.framework := Analysis.framework analysis;
        Metadata.dependencies := Analysis.dependencies analysis
      |}
    |}).

End Builder.

(** ** The chunker *)

Definition maxChunkSize : nat := 1000.

(** The loop of [splitContent]: the chunks closed so far, oldest first,
    and the chunk being filled. *)
Fixpoint accumulate (lines : list jsstring) (chunks : list jsstring)
    (currentChunk : jsstring) : list jsstring * jsstring :=
  match lines with
  | [] => (chunks, currentChunk)
  | line :: more =>
      if Nat.ltb maxChunkSize (length currentChunk + length line)
         && Nat.ltb 0 (length currentChunk)
      then accumulate more (chunks ++ [trim currentChunk]) line
      else accumulate more chunks
             (currentChunk
              ++ (match currentChunk with [] => [] | _ => nl end)
              ++ line)
  end.

(** The [chunks] array when the [return] statement is reached: the loop,
    then the flush of a chunk that is not blank. *)
Definition lineChunks (content : jsstring) : list jsstring :=
  let lines := split_lines content in
  let (chunks, currentChunk) := accumulate lines [] [] in
  match trim currentChunk with
  | [] => chunks
  | _ => chunks ++ [trim currentChunk]
  end.

Definition splitContent (content : jsstring) : list jsstring :=
  match lineChunks content with
  | [] => [content]
  | chunks => chunks
  end.

(** ** The storage side of the engine *)

(** The id of the [i]-th chunk of an item: the template
    [${item.id}_chunk_${i}] of [addKnowledge]. *)
Definition chunkId (id : jsstring) (i : nat) : jsstring :=
  id ++ js "_chunk_" ++ ofNumber (N.of_nat i).

(** The metadata [addKnowledge] stores with a chunk: the metadata of the
    item, spread, and the four fields it adds. *)
Module ChunkMetadata.
Record t (Date : Type) : Type := {
  item : Metadata.t Date;
  originalId : jsstring;
  chunkIndex : nat;
  title : jsstring;
  totalChunks : nat
}.
End ChunkMetadata.

(** The argument of one [collection.add] call.  Each of its arrays has one
    element; an array read out of range is [undefined], here [None]. *)
Module AddRequest.
Record t (Date Embedding : Type) : Type := {
  ids : jsstring;
  embeddings : option Embedding;
  documents : jsv;
  metadatas : ChunkMetadata.t Date
}.
End AddRequest.

Section Engine.

Variable Date : Type.
Variable Embedding : Type.

(** What the [n]-th pass of the loop of [generateEmbeddings] pushes for a
    text: the values of the provider, or the hash fallback of the [catch]
    branch when the provider fails. *)
Variable embed : nat -> jsstring -> Embedding.

Fixpoint generateEmbeddingsFrom (n : nat) (texts : list jsstring)
    : list Embedding :=
  match texts with
  | [] => []
  | text :: more => embed n text :: generateEmbeddingsFrom (S n) more
  end.

Definition generateEmbeddings (texts : list jsstring) : list Embedding :=
  generateEmbeddingsFrom 0 texts.

(** The [collection.add] calls of [addKnowledge], in the order of the loop
    [for (let i = 0; i < chunks.length; i++)], when the store raises no
    error: a rejected [getCollection] or [add] ends the loop there. *)
Definition addKnowledge (item : KnowledgeItem.t Date)
    : list (AddRequest.t Date Embedding) :=
  let chunks := splitContent (KnowledgeItem.content item) in
  let embeddings := generateEmbeddings chunks in
  List.map
    (fun i =>
       {| AddRequest.ids := chunkId (KnowledgeItem.id item) i;
          AddRequest.embeddings := nth_error embeddings i;
          AddRequest.documents := nth_error chunks i;
          AddRequest.metadatas := {|
            ChunkMetadata.item := KnowledgeItem.metadata item;
            ChunkMetadata.originalId := KnowledgeItem.id item;
            ChunkMetadata.chunkIndex := i;
            ChunkMetadata.title := KnowledgeItem.title item;
            ChunkMetadata.totalChunks := length chunks
          |}
       |})
    (seq 0 (length chunks)).

End Engine.

(** *** Choosing the model *)

Definition modelNames : list jsstring :=
  List.map js ["gemini-1.5-flash"; "gemini-1.5-pro"; "gemini-1.0-pro"]%string.

(** The provider as [initializeModel] uses it: [getGenerativeModel] returns
    a model object or throws ([None]); [generateContent('test')] on a model
    object resolves ([true]) or rejects. *)
Record Provider (Model : Type) : Type := {
  getGenerativeModel : jsstring -> option Model;
  generateContent : Model -> bool
}.

Inductive initialized (Model : Type) : Type :=
| Using (model : Model)
| NoModelAvailable.

Arguments Using {Model} model.
Arguments NoModelAvailable {Model}.

Section InitializeModel.

Variable Model : Type.
Variable provider : Provider Model.

(** The loop of [initializeModel]; [current] is the field [this.model],
    which the [try] block assigns before it probes the model. *)
Fixpoint tryModels (models : list jsstring) (current : option Model)
    : option Model :=
  match models with
  | [] => current
  | modelName :: more =>
      match getGenerativeModel provider modelName with
      | None => tryModels more current
      | Some model =>
          if generateContent provider model then Some model
          else tryModels more (Some model)
      end
  end.

Definition initializeModel : initialized Model :=
  match tryModels modelNames None with
  | Some model => Using model
  | None => NoModelAvailable
  end.

End InitializeModel.

(** ** The watchers *)

(** [s.slice(0, -n)] *)
Definition dropLast (n : nat) (s : jsstring) : jsstring :=
  firstn (length s - n) s.

Inductive action : Type := added | modified | removed.

(** The call a watcher makes on the engine for one file event. *)
Inductive engineCall (Date : Type) : Type :=
| NoCall
| RemoveKnowledge (id : jsstring)
| AddKnowledge (item : KnowledgeItem.t Date)
| UpdateKnowledge (item : KnowledgeItem.t Date).

Arguments NoCall {Date}.
Arguments RemoveKnowledge {Date} id.
Arguments AddKnowledge {Date} item.
Arguments UpdateKnowledge {Date} item.

Module GitHubWatcher.

Record RepoConfig : Type := {
  owner : jsstring;
  repo : jsstring;
  branch : jsv;
  excludePaths : option (list jsstring)
}.

Definition shouldExcludeFile (filePath : jsstring)
    (excludePaths : option (list jsstring)) : bool :=
  match excludePaths with
  | None => false
  | Some paths =>
      existsb
        (fun excludePath =>
           if endsWith excludePath (js "/**")
           then let prefix := dropLast 3 excludePath in
                startsWith filePath prefix
           else includes filePath excludePath)
        paths
  end.

Section Events.

Variable Date : Type.
Variable host : Host.

(** [processFileChange].  [fetched] is what [fetchFileContent] returns
    ([null] is [None]) and [now] the value of [new Date()]; the result is
    the call made on the engine.  The checks before the [try] block let an
    exception through; the [catch] of the block only logs. *)
Definition processFileChange (repos : list RepoConfig) (act : action)
    (repoFullName filePath : jsstring) (fetched : jsv) (now : Date)
    : result (engineCall Date) :=
  match List.find
          (fun r => eqs (owner r ++ js "/" ++ repo r) repoFullName) repos with
  | None => Ok NoCall
  | Some repoConfig =>
      if shouldExcludeFile filePath (excludePaths repoConfig) then Ok NoCall
      else
        eligible <- shouldProcessFile defaultConfig filePath ;;
        if negb eligible then Ok NoCall
        else
          match act with
          | removed => Ok (RemoveKnowledge (generateId repoFullName filePath))
          | _ =>
              if truthy fetched then
                let fileInfo := {|
                  FileInfo.repository := repoFullName;
                  FileInfo.filePath := filePath;
                  FileInfo.content := toStr fetched;
                  FileInfo.lastModified := now |} in
                match extractKnowledge host fileInfo with
                | Ok (Some knowledge) =>
                    match act with
                    | modified => Ok (UpdateKnowledge knowledge)
                    | _ => Ok (AddKnowledge knowledge)
                    end
                | Ok None => Ok NoCall
                | Throw _ => Ok NoCall
                end
              else Ok NoCall
          end
  end.

End Events.

End GitHubWatcher.

Module LocalFileWatcher.

Record LocalRepoConfig : Type := {
  name : jsstring;
  path : jsstring;
  excludePaths : option (list jsstring)
}.

Definition defaultExcludes : list jsstring :=
  List.map js
    ["node_modules"; ".git"; "dist"; "build"; "coverage"; ".nyc_output"]%string.

Definition shouldExcludePath (path : jsstring)
    (excludePaths : option (list jsstring)) : bool :=
  let allExcludes :=
    defaultExcludes ++ match excludePaths with Some l => l | None => [] end in
  existsb
    (fun exclude =>
       if endsWith exclude (js "/**")
       then includes path (dropLast 3 exclude)
       else includes path exclude)
    allExcludes.

Definition defaultIgnored : list jsstring :=
  List.map js
    ["**/node_modules/**"; "**/.git/**"; "**/dist/**"; "**/build/**";
     "**/coverage/**"; "**/.nyc_output/**"; "**/*.log"; "**/.DS_Store";
     "**/Thumbs.db"]%string.

(** The [map] of [createIgnorePatterns]: each pattern is rewritten as in
    [matchesPattern] and compiled, in order. *)
Fixpoint compileAll (patterns : list jsstring) : result (list regex) :=
  match patterns with
  | [] => Ok []
  | pattern :: more =>
      re <- construct (regexPattern pattern) false ;;
      res <- compileAll more ;;
      Ok (re :: res)
  end.

Definition createIgnorePatterns (excludePaths : option (list jsstring))
    : result (list regex) :=
  let allIgnored :=
    defaultIgnored ++ match excludePaths with Some l => l | None => [] end in
  compileAll allIgnored.

Definition generateKnowledgeId (repoName filePath : jsstring) : jsstring :=
  let cleanRepo := replaceAll Patterns.nonAlnum (js "_") repoName in
  let cleanPath := replaceAll Patterns.nonAlnum (js "_") filePath in
  cleanRepo ++ js "_" ++ cleanPath.

Section Events.

Variable Date : Type.
Variable host : Host.

(** Node's [path.relative]. *)
Variable relative : jsstring -> jsstring -> jsstring.

(** [handleFileEvent].  [read] and [stat] are the outcomes of
    [fs.readFile] and of [fs.stat(...).mtime], which may throw; the whole
    body is inside one [try] whose [catch] only logs. *)
Definition handleFileEvent (act : action) (repo : LocalRepoConfig)
    (filePath : jsstring) (read : result jsstring) (stat : result Date)
    : engineCall Date :=
  let relativePath := relative (path repo) filePath in
  match shouldProcessFile defaultConfig relativePath with
  | Throw _ => NoCall
  | Ok false => NoCall
  | Ok true =>
      match act with
      | removed =>
          RemoveKnowledge (generateKnowledgeId (name repo) relativePath)
      | _ =>
          match read, stat with
          | Ok content, Ok mtime =>
              let fileInfo := {|
                FileInfo.repository := name repo;
                FileInfo.filePath := relativePath;
                FileInfo.content := content;
                FileInfo.lastModified := mtime |} in
              match extractKnowledge host fileInfo with
              | Ok (Some knowledge) =>
                  match act with
                  | modified => UpdateKnowledge knowledge
                  | _ => AddKnowledge knowledge
                  end
              | Ok None => NoCall
              | Throw _ => NoCall
              end
          | _, _ => NoCall
          end
      end
  end.

End Events.

End LocalFileWatcher.

(** ** A host for the examples

    Paths in the examples are plain relative POSIX paths, for which
    [basename] is the text after the last slash and [extname] the text from
    the last dot of the base name on; the examples are ASCII, where lower
    casing shifts the capital letters.  No statement below depends on the
    value of the digest, which is left empty here. *)

Module Example.

Fixpoint afterLast (p : char -> bool) (acc s : jsstring) : jsstring :=
  match s with
  | [] => acc
  | x :: s' => if p x then afterLast p s' s' else afterLast p acc s'
  end.

Fixpoint fromLast (p : char -> bool) (acc s : jsstring) : jsstring :=
  match s with
  | [] => acc
  | x :: s' => if p x then fromLast p s s' else fromLast p acc s'
  end.

Definition host : Host := {|
  md5hex := fun _ => [];
  basename := fun path => afterLast (eqc (chr "/")) path path;
  extname := fun path =>
    match afterLast (eqc (chr "/")) path path with
    | [] => []
    | x :: base => fromLast (eqc (chr ".")) [] base
    end;
  toLowerCase := List.map (fun c => if is_upper c then (c + 32)%N else c)
|}.

Definition file (repository filePath content : jsstring) : FileInfo.t N :=
  {| FileInfo.repository := repository;
     FileInfo.filePath := filePath;
     FileInfo.content := content;
     FileInfo.lastModified := 0%N |}.

(** A watched GitHub repository and a watched local directory. *)
Definition githubRepos : list GitHubWatcher.RepoConfig :=
  [{| GitHubWatcher.owner := js "acme";
      GitHubWatcher.repo := js "app";
      GitHubWatcher.branch := None;
      GitHubWatcher.excludePaths := Some [js "docs/**"] |}].

Definition localRepo : LocalFileWatcher.LocalRepoConfig :=
  {| LocalFileWatcher.name := js "app";
     LocalFileWatcher.path := js ".";
     LocalFileWatcher.excludePaths := None |}.

(** [path.relative] for a file already given relative to the directory. *)
Definition relative (from to : jsstring) : jsstring := to.

End Example.

(** * Notions used in the statements

    What the properties below are stated with: readings of a pattern, the
    analyses of a pattern that bound what its matches record, and the
    position-by-position view of a global scan. *)

(** What [generateId] does to one character. *)
Definition sanitize (c : char) : char := if is_alnum c then c else 95%N.

(** The characters of the lines, separators not counted. *)
Definition weight (lines : list jsstring) : nat :=
  list_sum (List.map (@length char) lines).

(** The template of [prepareContent] up to the original content. *)
Definition contentHeader (analysis : Analysis.t) (filePath : jsstring)
    : jsstring :=
  js "File: " ++ filePath ++
  nl ++ js "Language: " ++ Analysis.language analysis ++
  nl ++ js "Framework: " ++
     toStr (orElse (Analysis.framework analysis) (Some (js "None"))) ++
  nl ++
  nl ++ js "Summary: " ++ Analysis.summary analysis ++
  nl ++
  nl ++ js "Dependencies:" ++
  nl ++ join nl (List.map (fun dep => js "- " ++ toStr dep)
                          (Analysis.dependencies analysis)) ++
  nl ++
  nl ++ js "Functions: " ++ joinv (js ", ") (Analysis.functions analysis) ++
  nl ++ js "Classes: " ++ joinv (js ", ") (Analysis.classes analysis) ++
  nl ++ js "Complexity: " ++ ofNumber (N.of_nat (Analysis.complexity analysis)) ++
  nl ++
  nl.


(** *** What a successful match is

    [matches r x y]: the pattern [r] can read from state [x] to state [y].
    The matcher only ever succeeds along such a reading. *)

Inductive star_rel (R : outcome -> outcome -> Prop)
    : outcome -> outcome -> Prop :=
| star_refl x : star_rel R x x
| star_step x y z : R x y -> star_rel R y z -> star_rel R x z.

Fixpoint matches (r : regex) (x y : outcome) : Prop :=
  match r with
  | Eps => y = x
  | Class p => exists ch, fst x = ch :: fst y /\ p ch = true /\ snd y = snd x
  | Seq a b => exists m, matches a x m /\ matches b m y
  | Alt a b => matches a x y \/ matches b x y
  | Star _ a => star_rel (matches a) x y
  | Group i a =>
      exists m, matches a x m /\
        y = (fst m,
             (i, firstn (length (fst x) - length (fst m)) (fst x)) :: snd m)
  end.

(** The least number of characters a match reads. *)
Fixpoint minlen (r : regex) : nat :=
  match r with
  | Eps => 0
  | Class _ => 1
  | Seq a b => minlen a + minlen b
  | Alt a b => Nat.min (minlen a) (minlen b)
  | Star _ _ => 0
  | Group _ a => minlen a
  end.

(** Whether group [i] occurs in the pattern. *)
Fixpoint mentions (i : nat) (r : regex) : bool :=
  match r with
  | Eps | Class _ => false
  | Seq a b | Alt a b => mentions i a || mentions i b
  | Star _ a => mentions i a
  | Group j a => Nat.eqb i j || mentions i a
  end.

(** Whether every match records group [i]. *)
Fixpoint records (i : nat) (r : regex) : bool :=
  match r with
  | Eps | Class _ | Star _ _ => false
  | Seq a b => records i a || records i b
  | Alt a b => records i a && records i b
  | Group j a => Nat.eqb i j || records i a
  end.

(** Whether every match leaves a text that is not empty in group [i]. *)
Fixpoint recordsText (i : nat) (r : regex) : bool :=
  match r with
  | Eps | Class _ | Star _ _ => false
  | Seq a b => recordsText i b || (recordsText i a && negb (mentions i b))
  | Alt a b => recordsText i a && recordsText i b
  | Group j a => if Nat.eqb i j then Nat.leb 1 (minlen a) else recordsText i a
  end.

(** Whether a value is not [undefined]. *)
Definition defined (v : jsv) : bool :=
  match v with Some _ => true | None => false end.

(** A matcher is sound for a relation when each of its successes goes
    through a state the relation allows. *)
Definition sound (R : outcome -> outcome -> Prop) (body : cont -> cont)
    : Prop :=
  forall k s c o, body k s c = Some o ->
    exists y, R (s, c) y /\ k (fst y) (snd y) = Some o.

(** Whether the RegExp constructor accepts a source. *)
Definition constructs (ignoreCase : bool) (source : jsstring) : bool :=
  match construct source ignoreCase with Ok _ => true | Throw _ => false end.

(** Where a match of [kw\s*\(] at the start of [s] ends. *)
Definition keywordHit (kw s : jsstring) : option jsstring :=
  match strip kw s with
  | Some t =>
      match dropWhile is_space t with
      | x :: rest => if eqc (chr "(") x then Some rest else None
      | [] => None
      end
  | None => None
  end.

(** Where a match of [&&|\|\|] at the start of [s] ends. *)
Definition logicalHit (s : jsstring) : option jsstring :=
  match strip (js "&&") s with
  | Some t => Some t
  | None => strip (js "||") s
  end.

(** The result of the matcher for a pattern without groups. *)
Definition ended (hit : option jsstring) : option outcome :=
  match hit with Some t => Some (t, []) | None => None end.

(** The scan of the global pattern, one position at a time. *)
Fixpoint count_from (hit : jsstring -> option jsstring) (fuel : nat)
    (s : jsstring) : nat :=
  match fuel with
  | O => 0
  | S fuel' =>
      match hit s with
      | Some t => S (count_from hit fuel' t)
      | None =>
          match s with
          | [] => 0
          | _ :: s' => count_from hit fuel' s'
          end
      end
  end.

(** The text without its white space. *)
Definition ink (s : jsstring) : jsstring :=
  List.filter (fun c => negb (is_space c)) s.

(** Whether every match of a pattern reads the character [c]. *)
Fixpoint needs (c : char) (r : regex) : Prop :=
  match r with
  | Eps => False
  | Class p => forall x, p x = true -> x = c
  | Seq a b => needs c a \/ needs c b
  | Alt a b => needs c a /\ needs c b
  | Star _ _ => False
  | Group _ a => needs c a
  end.

(** The tags [generateTags] takes from the path, the language, the
    framework and the dependencies, and those it takes from the analysis of
    the content. *)
Definition sourceTags : list jsstring :=
  List.map js ["test"; "api"; "component"; "utility"; "configuration";
               "service"; "model"; "controller"]%string
  ++ List.map snd typeMap ++ [js "unknown"]
  ++ List.map fst frameworks
  ++ List.map js ["react"; "express"; "typescript"]%string.

Definition contentWords : list jsstring :=
  List.map js ["functions"; "classes"; "complex"; "simple"]%string.

(** Whether every class of a pattern ignores ASCII case. *)
Fixpoint caseBlind (r : regex) : Prop :=
  match r with
  | Eps => True
  | Class p => forall c, p (upcase c) = p c
  | Seq a b | Alt a b => caseBlind a /\ caseBlind b
  | Star _ a | Group _ a => caseBlind a
  end.

(** Whether a matcher or a search found something. *)
Definition matched {A : Type} (o : option A) : bool :=
  match o with Some _ => true | None => false end.

(** ASCII lower casing. *)
Definition downcase (c : char) : char :=
  if is_upper c then (c + 32)%N else c.

(** The characters of a plain glob: those without a meaning in a regular
    expression, and [*], [?] and [.]. *)
Definition globChar (c : char) : bool :=
  negb (syntax_char c) || mem c (js "*?.").

(** What the replacements of [matchesPattern] make of one character of a
    glob in which [**] has been rewritten. *)
Definition globAtom (c : char) : jsstring :=
  flat_map (fun c => if eqc 63%N c then js "." else [c])
           (if eqc 42%N c then js "[^/]*" else [c]).

(** The characters of the lines, one separator counted after each. *)
Definition span (lines : list jsstring) : nat :=
  list_sum (List.map (fun l => S (length l)) lines).

(** Whether the last character of a text is white space. *)
Definition endsInSpace (s : jsstring) : bool :=
  match rev s with
  | c :: _ => is_space c
  | [] => false
  end.

(** * Properties *)

Unset Implicit Arguments.

(** ** The pattern matcher *)

Lemma bind_ok {A B} (m : result A) (f : A -> result B) (b : B) :
  bind m f = Ok b -> exists a, m = Ok a /\ f a = Ok b.
Proof.
  destruct m as [a | e]; simpl; intros H.
  - exists a; auto.
  - discriminate.
Qed.

Lemma matchesAny_false filePath patterns :
  Forall (fun pattern => matchesPattern filePath pattern = Ok false) patterns ->
  matchesAny filePath patterns = Ok false.
Proof.
  induction 1 as [| pattern more Hhead _ IH]; simpl.
  - reflexivity.
  - rewrite Hhead; simpl. exact IH.
Qed.

Lemma matchesAny_true filePath patterns pattern :
  Forall (fun q => exists b, matchesPattern filePath q = Ok b) patterns ->
  In pattern patterns ->
  matchesPattern filePath pattern = Ok true ->
  matchesAny filePath patterns = Ok true.
Proof.
  induction 1 as [| q more [b Hq] _ IH]; simpl; intros Hin Hhit.
  - contradiction.
  - rewrite Hq; simpl. destruct b; [reflexivity |].
    destruct Hin as [-> | Hin]; [congruence | auto].
Qed.

(** C1.  Under the configuration the constructor installs, the path
    [node_modules/foo/bar.js] is accepted: the source derived from
    [**/node_modules/**] asks for a slash before [node_modules], which a
    relative path that starts with that directory does not have, and the
    include pattern [**/*.js] matches. *)
Theorem node_modules_relative_path_accepted :
  matchesPattern (js "node_modules/foo/bar.js") (js "**/node_modules/**")
    = Ok false
  /\ regexPattern (js "**/node_modules/**") = js ".[^/]*/node_modules/.[^/]*"
  /\ shouldProcessFile defaultConfig (js "node_modules/foo/bar.js") = Ok true.
Proof. split; [| split]; vm_compute; reflexivity. Qed.

(** C5.  Exclusion wins and the default is to deny: for any configuration
    whose exclude patterns are all accepted by the RegExp constructor, a path
    matched by some exclude pattern is rejected whatever the include patterns
    are, and a path that no pattern of either list matches is rejected. *)
Theorem shouldProcessFile_exclusion_first_default_deny
    (config : ExtractionConfig) (filePath : jsstring) :
  (Forall (fun q => exists b, matchesPattern filePath q = Ok b)
          (excludePatterns config) ->
   (exists pattern, In pattern (excludePatterns config)
                    /\ matchesPattern filePath pattern = Ok true) ->
   shouldProcessFile config filePath = Ok false)
  /\
  (Forall (fun q => matchesPattern filePath q = Ok false)
          (excludePatterns config ++ includePatterns config) ->
   shouldProcessFile config filePath = Ok false).
Proof.
  unfold shouldProcessFile. split.
  - intros Hwf [pattern [Hin Hhit]].
    rewrite (matchesAny_true _ _ _ Hwf Hin Hhit). reflexivity.
  - intros Hnone. apply Forall_app in Hnone as [Hex Hin].
    rewrite (matchesAny_false _ _ Hex); simpl.
    rewrite (matchesAny_false _ _ Hin). reflexivity.
Qed.

(** With the exclude patterns of the constructor, which are all accepted,
    no choice of include patterns brings an excluded path back. *)
Lemma default_exclusion_wins (includes : list jsstring)
    (languages : list (jsstring * LanguageConfig))
    (filePath pattern : jsstring) :
  In pattern (excludePatterns defaultConfig) ->
  matchesPattern filePath pattern = Ok true ->
  shouldProcessFile
    {| includePatterns := includes;
       excludePatterns := excludePatterns defaultConfig;
       languageConfigs := languages |} filePath = Ok false.
Proof.
  intros Hin Hhit. unfold shouldProcessFile. cbn [excludePatterns].
  assert (Hwf : Forall (fun q => exists b, matchesPattern filePath q = Ok b)
                  (excludePatterns defaultConfig)).
  { assert (Hre : Forall (fun q => exists re,
                            construct (regexPattern q) false = Ok re)
                    (excludePatterns defaultConfig))
      by (repeat constructor; eexists; vm_compute; reflexivity).
    revert Hre. apply Forall_impl. intros q [re Hq].
    unfold matchesPattern. rewrite Hq. eexists. reflexivity. }
  rewrite (matchesAny_true _ _ _ Hwf Hin Hhit). reflexivity.
Qed.

Lemma shouldProcessFile_exclusion_first_default_deny_witness :
  shouldProcessFile defaultConfig (js "src/node_modules/foo/bar.js") = Ok false
  /\ shouldProcessFile defaultConfig (js "docs/notes.txt") = Ok false.
Proof.
  split.
  - apply (proj1 (shouldProcessFile_exclusion_first_default_deny
                    defaultConfig (js "src/node_modules/foo/bar.js"))).
    + repeat constructor; eexists; vm_compute; reflexivity.
    + exists (js "**/node_modules/**"). split.
      * simpl. left. reflexivity.
      * vm_compute. reflexivity.
  - apply (proj2 (shouldProcessFile_exclusion_first_default_deny
                    defaultConfig (js "docs/notes.txt"))).
    repeat constructor; vm_compute; reflexivity.
Defined.

(** ** Strings *)

Lemma eqc_eq (a b : char) : eqc a b = true <-> a = b.
Proof. apply N.eqb_eq. Qed.

Lemma eqc_refl (a : char) : eqc a a = true.
Proof. apply N.eqb_refl. Qed.

Lemma strip_app (p s : jsstring) : strip p (p ++ s) = Some s.
Proof.
  induction p as [| x p IH]; simpl; [reflexivity |].
  rewrite eqc_refl. exact IH.
Qed.

Lemma strip_some (p s t : jsstring) : strip p s = Some t -> s = p ++ t.
Proof.
  revert s; induction p as [| x p IH]; intros s; simpl.
  - intros H; injection H as ->; reflexivity.
  - destruct s as [| y s]; [discriminate |].
    destruct (eqc x y) eqn:E; [| discriminate].
    apply eqc_eq in E; subst y. intros H. f_equal. auto.
Qed.

Lemma endsWith_iff (s p : jsstring) :
  endsWith s p = true <-> exists head, s = head ++ p.
Proof.
  unfold endsWith, startsWith. split.
  - destruct (strip (rev p) (rev s)) as [t |] eqn:E; [| discriminate].
    intros _. apply strip_some in E. exists (rev t).
    rewrite <- (rev_involutive s), E, rev_app_distr, rev_involutive.
    reflexivity.
  - intros [head ->]. rewrite rev_app_distr, strip_app. reflexivity.
Qed.

Lemma dropWhile_app (p : char -> bool) (a b : jsstring) :
  dropWhile p (a ++ b) =
  if forallb p a then dropWhile p b else dropWhile p a ++ b.
Proof.
  induction a as [| x a IH]; simpl; [reflexivity |].
  destruct (p x); simpl; [exact IH | reflexivity].
Qed.

Lemma dropWhile_nil (p : char -> bool) (s : jsstring) :
  dropWhile p s = [] <-> forallb p s = true.
Proof.
  induction s as [| x s IH]; simpl.
  - tauto.
  - destruct (p x); simpl; [exact IH |].
    split; discriminate.
Qed.

Lemma forallb_dropWhile (p : char -> bool) (s : jsstring) :
  forallb p (dropWhile p s) = forallb p s.
Proof.
  induction s as [| x s IH]; simpl; [reflexivity |].
  destruct (p x) eqn:E; simpl; [exact IH |].
  rewrite E. reflexivity.
Qed.

Lemma forallb_rev (p : char -> bool) (s : jsstring) :
  forallb p (rev s) = forallb p s.
Proof.
  induction s as [| x s IH]; simpl; [reflexivity |].
  rewrite forallb_app, IH. simpl. rewrite andb_true_r. apply andb_comm.
Qed.

Lemma trimEnd_app_blank (a b : jsstring) :
  forallb is_space b = true -> trimEnd (a ++ b) = trimEnd a.
Proof.
  intros Hb. unfold trimEnd.
  rewrite rev_app_distr, dropWhile_app, forallb_rev, Hb. reflexivity.
Qed.

Lemma trimEnd_app_nonblank (a b : jsstring) :
  forallb is_space b = false -> trimEnd (a ++ b) = a ++ trimEnd b.
Proof.
  intros Hb. unfold trimEnd.
  rewrite rev_app_distr, dropWhile_app, forallb_rev, Hb.
  rewrite rev_app_distr, rev_involutive. reflexivity.
Qed.

Lemma trimEnd_blank (s : jsstring) :
  forallb is_space s = true -> trimEnd s = [].
Proof.
  intros Hs. unfold trimEnd.
  assert (H : dropWhile is_space (rev s) = [])
    by (apply dropWhile_nil; rewrite forallb_rev; exact Hs).
  rewrite H. reflexivity.
Qed.

Lemma trim_nil (s : jsstring) : trim s = [] <-> forallb is_space s = true.
Proof.
  unfold trim, trimEnd, trimStart. split.
  - intros H.
    assert (H' : dropWhile is_space (rev (dropWhile is_space s)) = []).
    { rewrite <- (rev_involutive (dropWhile _ (rev _))), H. reflexivity. }
    apply dropWhile_nil in H'.
    rewrite forallb_rev, forallb_dropWhile in H'. exact H'.
  - intros H. apply dropWhile_nil in H. rewrite H. reflexivity.
Qed.

Lemma trim_app_nonblank (a b : jsstring) :
  trim b <> [] -> trim (a ++ b) <> [].
Proof.
  intros Hb Hab. apply Hb. apply trim_nil. apply trim_nil in Hab.
  rewrite forallb_app in Hab. apply andb_true_iff in Hab. tauto.
Qed.

(** ** The chunker *)

Arguments maxChunkSize : simpl never.



Lemma weight_app (a b : list jsstring) : weight (a ++ b) = weight a + weight b.
Proof. unfold weight. rewrite map_app, list_sum_app. reflexivity. Qed.

Lemma accumulate_app (l1 l2 chunks : list jsstring) (current : jsstring) :
  accumulate (l1 ++ l2) chunks current =
  accumulate l2 (fst (accumulate l1 chunks current))
                (snd (accumulate l1 chunks current)).
Proof.
  revert chunks current; induction l1 as [| line l1 IH]; intros; simpl.
  - reflexivity.
  - destruct (_ && _); apply IH.
Qed.

(** Closed chunks are never taken back. *)
Lemma accumulate_grows (lines chunks : list jsstring) (current : jsstring) :
  length chunks <= length (fst (accumulate lines chunks current)).
Proof.
  revert chunks current; induction lines as [| line lines IH]; intros; simpl.
  - lia.
  - destruct (_ && _).
    + specialize (IH (chunks ++ [trim current]) line).
      rewrite length_app in IH. simpl in IH. lia.
    + apply IH.
Qed.

(** Once the lines taken into the current chunk and the lines to come
    weigh more than the limit, a chunk is closed.  [w] is the weight of the
    lines in the current chunk. *)
Lemma accumulate_closes (lines chunks : list jsstring) (current : jsstring)
    (w : nat) :
  Forall (fun l => length l <= maxChunkSize) lines ->
  w <= length current -> w <= maxChunkSize ->
  maxChunkSize < w + weight lines ->
  length chunks < length (fst (accumulate lines chunks current)).
Proof.
  intros Hlines; revert chunks current w.
  induction Hlines as [| line lines Hline _ IH]; intros chunks current w Hw Hm Hover.
  - unfold weight in Hover; simpl in Hover. lia.
  - simpl.
    destruct (Nat.ltb maxChunkSize (length current + length line)) eqn:E1;
      destruct (Nat.ltb 0 (length current)) eqn:E2; simpl.
    + pose proof (accumulate_grows lines (chunks ++ [trim current]) line) as G.
      rewrite length_app in G. simpl in G. lia.
    + apply Nat.ltb_ge in E2.
      assert (current = []) by (destruct current; simpl in E2; [auto | lia]).
      subst current. simpl in *.
      apply (IH chunks line (length line)); try lia.
      unfold weight in *; simpl in *. lia.
    + apply Nat.ltb_ge in E1.
      apply (IH chunks _ (w + length line)).
      * rewrite !length_app. lia.
      * lia.
      * unfold weight in *; simpl in *. lia.
    + apply Nat.ltb_ge in E2.
      assert (current = []) by (destruct current; simpl in E2; [auto | lia]).
      subst current. simpl in *.
      apply (IH chunks line (length line)); try lia.
      unfold weight in *; simpl in *. lia.
Qed.

(** The current chunk ends with the line read last. *)
Lemma accumulate_last (lines chunks : list jsstring) (current line : jsstring) :
  exists head,
    snd (accumulate (lines ++ [line]) chunks current) = head ++ line.
Proof.
  revert chunks current; induction lines as [| l lines IH]; intros; simpl.
  - destruct (_ && _); simpl.
    + exists []. reflexivity.
    + exists (current ++ match current with [] => [] | _ => nl end).
      rewrite <- app_assoc. reflexivity.
  - destruct (_ && _); apply IH.
Qed.

(** With a current chunk that is not blank, one more chunk is produced:
    closed by a later line or flushed at the end. *)
Lemma accumulate_flushes (lines chunks : list jsstring) (current : jsstring) :
  trim current <> [] ->
  let r := accumulate lines chunks current in
  length chunks < length (fst r) \/
  (length chunks <= length (fst r) /\ trim (snd r) <> []).
Proof.
  revert chunks current; induction lines as [| line lines IH];
    intros chunks current Hcur; simpl.
  - right. split; [lia | exact Hcur].
  - destruct (_ && _).
    + left.
      pose proof (accumulate_grows lines (chunks ++ [trim current]) line) as G.
      rewrite length_app in G. simpl in G. lia.
    + apply IH. intros H. apply Hcur. apply trim_nil. apply trim_nil in H.
      rewrite forallb_app in H. apply andb_true_iff in H. tauto.
Qed.

Lemma Forall_length_le (n : nat) (lines : list jsstring) :
  forallb (fun l => Nat.leb (length l) n) lines = true ->
  Forall (fun l => length l <= n) lines.
Proof.
  intros H. apply Forall_forall. intros l Hl. apply Nat.leb_le.
  exact (proj1 (forallb_forall _ lines) H l Hl).
Qed.

(** C6.  [splitContent] never returns an empty array; when the loop and
    the flush leave no chunk it returns the content itself as the only
    chunk, as it does for the empty content. *)
Theorem splitContent_never_empty (content : jsstring) :
  splitContent content <> []
  /\ (lineChunks content = [] -> splitContent content = [content])
  /\ splitContent [] = [[]].
Proof.
  unfold splitContent. split; [| split].
  - destruct (lineChunks content); discriminate.
  - intros ->. reflexivity.
  - reflexivity.
Qed.

Lemma splitContent_never_empty_witness :
  splitContent (js "   ") = [js "   "].
Proof.
  apply (proj1 (proj2 (splitContent_never_empty (js "   ")))).
  vm_compute. reflexivity.
Defined.

(** C4, as stated, fails on the code: the test that closes a chunk adds the
    lengths of the chunk and of the line without the separator, so two lines
    of 600 and 400 characters (1001 characters with the separator) stay in
    one chunk; and lines that are blank leave no chunk of their own. *)
Lemma splitContent_single_chunk_over_limit :
  let content := repeat (chr "a") 600 ++ nl ++ repeat (chr "b") 400 in
  let blanks := repeat 10%N 1001 in
  (maxChunkSize < length content
   /\ Forall (fun l => length l <= maxChunkSize) (split_lines content)
   /\ length (splitContent content) = 1)
  /\
  (maxChunkSize < length blanks
   /\ Forall (fun l => length l <= maxChunkSize) (split_lines blanks)
   /\ length (splitContent blanks) = 1).
Proof.
  cbv zeta. split; (split; [| split]).
  - apply Nat.ltb_lt. vm_compute. reflexivity.
  - apply Forall_length_le. vm_compute. reflexivity.
  - vm_compute. reflexivity.
  - apply Nat.ltb_lt. vm_compute. reflexivity.
  - apply Forall_length_le. vm_compute. reflexivity.
  - vm_compute. reflexivity.
Qed.

(** C4, amended.  When no line exceeds [maxChunkSize] and the lines up to
    and including some line that is not blank hold more than [maxChunkSize]
    characters, separators not counted, [splitContent] produces at least two
    chunks. *)
Theorem splitContent_two_chunks
    (content : jsstring) (before : list jsstring) (line : jsstring)
    (after : list jsstring) :
  split_lines content = before ++ line :: after ->
  Forall (fun l => length l <= maxChunkSize) (split_lines content) ->
  trim line <> [] ->
  maxChunkSize < weight (before ++ [line]) ->
  2 <= length (splitContent content).
Proof.
  intros Hsplit Hlines Hline Hover.
  unfold splitContent, lineChunks.
  rewrite Hsplit in *.
  replace (before ++ line :: after) with ((before ++ [line]) ++ after) in *
    by (rewrite <- app_assoc; reflexivity).
  rewrite accumulate_app.
  apply Forall_app in Hlines as [Hhead _].
  pose proof (accumulate_closes (before ++ [line]) [] [] 0 Hhead) as Hclosed.
  simpl in Hclosed. specialize (Hclosed (Nat.le_refl 0) (Nat.le_0_l _) Hover).
  destruct (accumulate_last before [] [] line) as [head Hlast].
  destruct (accumulate (before ++ [line]) [] []) as [chunks1 current1].
  simpl in *. subst current1.
  pose proof (accumulate_flushes after chunks1 (head ++ line)
                (trim_app_nonblank head line Hline)) as Hflush.
  simpl in Hflush.
  destruct (accumulate after chunks1 (head ++ line)) as [chunks2 current2].
  simpl in Hflush.
  assert (Hkeep : forall chunks fallback : list jsstring,
             2 <= length chunks ->
             2 <= length (match chunks with
                          | [] => fallback
                          | c :: cs => c :: cs
                          end)).
  { intros [| c cs] fallback H; simpl in *; [lia | exact H]. }
  apply Hkeep.
  destruct Hflush as [Hmore | [Hsame Hcur]].
  - destruct (trim current2); [| rewrite length_app; simpl]; lia.
  - destruct (trim current2); [congruence |].
    rewrite length_app; simpl; lia.
Qed.

Lemma splitContent_two_chunks_witness :
  2 <= length (splitContent
                 (repeat (chr "a") 600 ++ nl ++ repeat (chr "b") 401 ++ nl)).
Proof.
  apply (splitContent_two_chunks _ [repeat (chr "a") 600]
           (repeat (chr "b") 401) [[]]).
  - vm_compute. reflexivity.
  - apply Forall_length_le. vm_compute. reflexivity.
  - vm_compute. discriminate.
  - apply Nat.ltb_lt. vm_compute. reflexivity.
Defined.

(** ** Identity *)



Lemma search_class_step (p : char -> bool) (by_ s : jsstring) :
  let f := fun c => if p c then by_ else [c] in
  match search (Class p) s with
  | None => flat_map f s = s
  | Some m =>
      empty m = false /\ length (rest m) < length s /\
      flat_map f s = pre m ++ by_ ++ flat_map f (rest m)
  end.
Proof.
  intros f. induction s as [| x s IH].
  - reflexivity.
  - cbn [search exec_at rmatch accept flat_map]. destruct (p x) eqn:E.
    + cbn [empty rest pre]. subst f; cbv beta. rewrite E.
      repeat split.
      * apply Nat.eqb_neq. simpl. lia.
      * simpl. lia.
    + destruct (search (Class p) s) as [m |]; cbn [empty rest pre].
      * destruct IH as (H1 & H2 & H3). repeat split; [exact H1 | simpl; lia |].
        rewrite H3. subst f; cbv beta. rewrite E. reflexivity.
      * rewrite IH. subst f; cbv beta. rewrite E. reflexivity.
Qed.

Lemma replaceAll_from_class (p : char -> bool) (by_ : jsstring) (fuel : nat) :
  forall s, length s < fuel ->
  replaceAll_from fuel (Class p) by_ s
  = flat_map (fun c => if p c then by_ else [c]) s.
Proof.
  induction fuel as [| fuel IH]; intros s Hlen; [lia |].
  cbn [replaceAll_from].
  pose proof (search_class_step p by_ s) as Hstep. cbv zeta in Hstep.
  destruct (search (Class p) s) as [m |].
  - destruct Hstep as (Hne & Hshort & Heq).
    rewrite Hne, IH by lia. symmetry. exact Heq.
  - symmetry. exact Hstep.
Qed.

Lemma replaceAll_nonAlnum (s : jsstring) :
  replaceAll Patterns.nonAlnum (js "_") s = List.map sanitize s.
Proof.
  unfold replaceAll, Patterns.nonAlnum.
  rewrite replaceAll_from_class by lia.
  induction s as [| x s IH]; simpl; [reflexivity |].
  rewrite IH. unfold sanitize. destruct (is_alnum x); reflexivity.
Qed.

(** The id is the two texts with every character outside [a-zA-Z0-9]
    replaced by an underscore, joined by an underscore. *)
Lemma generateId_spec (repository filePath : jsstring) :
  generateId repository filePath
  = List.map sanitize repository ++ js "_" ++ List.map sanitize filePath.
Proof. unfold generateId. rewrite !replaceAll_nonAlnum. reflexivity. Qed.

(** C10.  [generateId] is not injective: two paths that differ in one
    character outside [a-zA-Z0-9] get the same id, and so do two
    (repository, path) pairs that place the separator differently; in
    general a segment can be moved across the separator. *)
Theorem generateId_not_injective :
  generateId (js "acme/app") (js "src/a-b.js")
    = generateId (js "acme/app") (js "src/a_b.js")
  /\ generateId (js "acme") (js "app/main.js")
     = generateId (js "acme/app") (js "main.js")
  /\ (forall repository segment filePath,
        generateId (repository ++ js "/" ++ segment) filePath
        = generateId repository (segment ++ js "/" ++ filePath))
  /\ ~ (forall r1 p1 r2 p2,
          generateId r1 p1 = generateId r2 p2 -> r1 = r2 /\ p1 = p2).
Proof.
  split; [vm_compute; reflexivity |].
  split; [vm_compute; reflexivity |].
  split.
  - intros. rewrite !generateId_spec, !map_app, <- !app_assoc. reflexivity.
  - intros H.
    assert (E : generateId (js "acme") (js "app/main.js")
                = generateId (js "acme/app") (js "main.js"))
      by (vm_compute; reflexivity).
    apply H in E. destruct E as [E _]. vm_compute in E. discriminate.
Qed.

(** ** Classes *)





Lemma extractClasses_doubled_example :
  extractClasses (js "class Foo extends Bar {}")
  = [Some (js "Foo"); Some (js "Foo")].
Proof. vm_compute. reflexivity. Qed.

(** ** The content body *)



Lemma contentTemplate_split content analysis filePath :
  contentTemplate content analysis filePath
  = nl ++ (contentHeader analysis filePath ++ js "Content:")
       ++ nl ++ content ++ nl ++ js "    ".
Proof.
  unfold contentTemplate, contentHeader.
  repeat rewrite <- app_assoc. reflexivity.
Qed.

Lemma prepareContent_shape content analysis filePath :
  prepareContent content analysis filePath
  = if forallb is_space content
    then contentHeader analysis filePath ++ js "Content:"
    else contentHeader analysis filePath
         ++ js "Content:" ++ nl ++ trimEnd content.
Proof.
  unfold prepareContent, trim. rewrite contentTemplate_split.
  set (header := contentHeader analysis filePath).
  assert (Hstart : trimStart (nl ++ (header ++ js "Content:") ++ nl ++ content
                                 ++ nl ++ js "    ")
                   = (header ++ js "Content:") ++ nl ++ content ++ nl ++ js "    ").
  { unfold header, contentHeader. reflexivity. }
  rewrite Hstart.
  replace ((header ++ js "Content:") ++ nl ++ content ++ nl ++ js "    ")
    with (((header ++ js "Content:") ++ nl ++ content) ++ nl ++ js "    ")
    by (repeat rewrite <- app_assoc; reflexivity).
  rewrite trimEnd_app_blank by reflexivity.
  destruct (forallb is_space content) eqn:Hblank.
  - replace ((header ++ js "Content:") ++ nl ++ content)
      with (header ++ js "Content:" ++ nl ++ content)
      by (repeat rewrite <- app_assoc; reflexivity).
    rewrite trimEnd_app_nonblank.
    + f_equal. rewrite (trimEnd_app_blank (js "Content:") (nl ++ content)).
      * reflexivity.
      * exact Hblank.
    + reflexivity.
  - replace ((header ++ js "Content:") ++ nl ++ content)
      with ((header ++ js "Content:" ++ nl) ++ content)
      by (repeat rewrite <- app_assoc; reflexivity).
    rewrite trimEnd_app_nonblank by exact Hblank.
    repeat rewrite <- app_assoc. reflexivity.
Qed.

(** What a non-null result of [extractKnowledge] is made of. *)
Lemma extractKnowledge_some (Date : Type) (host : Host)
    (fileInfo : FileInfo.t Date) (item : KnowledgeItem.t Date) :
  extractKnowledge host fileInfo = Ok (Some item) ->
  shouldProcessFile defaultConfig (FileInfo.filePath fileInfo) = Ok true
  /\ exists analysis tags,
       analyzeContent (FileInfo.content fileInfo)
         (getFileType host (FileInfo.filePath fileInfo)) = Ok analysis
       /\ generateTags (FileInfo.filePath fileInfo) analysis = Ok tags
       /\ KnowledgeItem.content item
          = prepareContent (FileInfo.content fileInfo) analysis
              (FileInfo.filePath fileInfo).
Proof.
  unfold extractKnowledge. intros H.
  apply bind_ok in H as [eligible [Helig H]].
  destruct eligible; simpl in H; [| discriminate].
  apply bind_ok in H as [analysis [Han H]].
  apply bind_ok in H as [tags [Htags H]].
  injection H as <-. simpl.
  split; [exact Helig |]. exists analysis, tags. auto.
Qed.

(** C7, as stated, fails on the code: [prepareContent] trims the filled
    template, and the trim removes the white space the file ends with; a
    file that ends with a newline is not found unmodified at the end. *)
Lemma content_not_verbatim_after_trim :
  exists item,
    extractKnowledge Example.host
      (Example.file (js "acme/app") (js "src/a.js") (js "x = 1;" ++ nl))
    = Ok (Some item)
    /\ ~ (exists head,
            KnowledgeItem.content item = head ++ (js "x = 1;" ++ nl)).
Proof.
  eexists. split.
  - vm_compute. reflexivity.
  - intros H. apply endsWith_iff in H. vm_compute in H. discriminate.
Qed.

Lemma endsInSpace_trimEnd (s : jsstring) : endsInSpace (trimEnd s) = false.
Proof.
  unfold endsInSpace, trimEnd. rewrite rev_involutive.
  induction (rev s) as [| x r IH]; cbn [dropWhile]; [reflexivity |].
  destruct (is_space x) eqn:E; [exact IH | exact E].
Qed.

Lemma endsInSpace_app (head s : jsstring) :
  s <> [] -> endsInSpace (head ++ s) = endsInSpace s.
Proof.
  intros Hs. unfold endsInSpace. rewrite rev_app_distr.
  destruct (rev s) as [| x r] eqn:E; [| reflexivity].
  exfalso. apply Hs. rewrite <- (rev_involutive s), E. reflexivity.
Qed.

(** A text keeps its end under [trimEnd] exactly when it does not end in
    white space. *)
Lemma trimEnd_fixed (s : jsstring) :
  endsInSpace s = false <-> trimEnd s = s.
Proof.
  split.
  - unfold endsInSpace, trimEnd. intros H.
    destruct (rev s) as [| x r] eqn:E.
    + rewrite <- (rev_involutive s), E. reflexivity.
    + cbn [dropWhile]. rewrite H, <- E. apply rev_involutive.
  - intros H. rewrite <- H. apply endsInSpace_trimEnd.
Qed.

(** C7, amended.  For every eligible file the content of the item ends with
    the original content stripped of its trailing white space; when the
    original content is not blank, that text follows the line [Content:];
    and the item ends with the original content unmodified exactly when the
    original content does not end in white space. *)
Theorem content_ends_with_trimmed_original (Date : Type) (host : Host)
    (fileInfo : FileInfo.t Date) (item : KnowledgeItem.t Date) :
  extractKnowledge host fileInfo = Ok (Some item) ->
  (exists head,
     KnowledgeItem.content item
     = head ++ trimEnd (FileInfo.content fileInfo))
  /\ (forallb is_space (FileInfo.content fileInfo) = false ->
      exists head,
        KnowledgeItem.content item
        = head ++ js "Content:" ++ nl ++ trimEnd (FileInfo.content fileInfo))
  /\ ((exists head,
         KnowledgeItem.content item = head ++ FileInfo.content fileInfo)
      <-> endsInSpace (FileInfo.content fileInfo) = false).
Proof.
  intros H. apply extractKnowledge_some in H as (_ & analysis & tags & _ & _ & ->).
  assert (Hfirst : exists head,
            prepareContent (FileInfo.content fileInfo) analysis
              (FileInfo.filePath fileInfo)
            = head ++ trimEnd (FileInfo.content fileInfo)).
  { rewrite prepareContent_shape.
    destruct (forallb is_space (FileInfo.content fileInfo)) eqn:Hblank.
    - exists (contentHeader analysis (FileInfo.filePath fileInfo)
              ++ js "Content:").
      rewrite (trimEnd_blank _ Hblank), app_nil_r. reflexivity.
    - exists (contentHeader analysis (FileInfo.filePath fileInfo)
              ++ js "Content:" ++ nl).
      rewrite <- !app_assoc. reflexivity. }
  split; [exact Hfirst |]. split.
  - intros Hblank. rewrite prepareContent_shape, Hblank.
    eexists. reflexivity.
  - split.
    + intros [head Hhead].
      destruct (FileInfo.content fileInfo) as [| x content] eqn:E;
        [reflexivity |].
      rewrite <- (endsInSpace_app head (x :: content)) by discriminate.
      rewrite <- Hhead. unfold prepareContent, trim.
      apply endsInSpace_trimEnd.
    + intros Hend. apply trimEnd_fixed in Hend.
      destruct Hfirst as [head Hhead]. exists head.
      rewrite Hend in Hhead. exact Hhead.
Qed.

Lemma content_ends_with_trimmed_original_witness :
  exists item head,
    extractKnowledge Example.host
      (Example.file (js "acme/app") (js "src/a.js") (js "x = 1;" ++ nl))
    = Ok (Some item)
    /\ KnowledgeItem.content item = head ++ js "Content:" ++ nl ++ js "x = 1;".
Proof.
  eexists.
  assert (E : extractKnowledge Example.host
                (Example.file (js "acme/app") (js "src/a.js")
                              (js "x = 1;" ++ nl)) = Ok (Some _))
    by (vm_compute; reflexivity).
  destruct (proj1 (proj2 (content_ends_with_trimmed_original _ _ _ _ E))
              eq_refl)
    as [head Hhead].
  exists head. split; [exact E | exact Hhead].
Defined.

(** ** The matcher *)





Lemma star_loop_sound R body greedy :
  sound R body ->
  forall fuel, sound (star_rel R) (star_loop greedy body fuel).
Proof.
  intros Hbody fuel. induction fuel as [| fuel IH]; intros k s c o H.
  - exists (s, c). split; [constructor | exact H].
  - cbn [star_loop] in H.
    assert (Hcases :
      k s c = Some o \/
      body (fun s' c' =>
              if Nat.ltb (length s') (length s)
              then star_loop greedy body fuel k s' c' else None) s c
      = Some o).
    { destruct greedy.
      - destruct (body _ s c) as [o' |]; [right | left]; assumption.
      - destruct (k s c) as [o' |]; [left | right]; assumption. }
    destruct Hcases as [Hk | Hagain].
    + exists (s, c). split; [constructor | exact Hk].
    + apply Hbody in Hagain as [[s1 c1] [Hy Hnext]]. cbn [fst snd] in Hnext.
      destruct (Nat.ltb _ _); [| discriminate].
      apply IH in Hnext as [z [Hz Hk]].
      exists z. split; [econstructor; eassumption | exact Hk].
Qed.

Theorem rmatch_sound (r : regex) : sound (matches r) (rmatch r).
Proof.
  induction r as [| p | a IHa b IHb | a IHa b IHb | g a IHa | i a IHa];
    intros k s c o H; cbn [rmatch] in H.
  - exists (s, c). split; [reflexivity | exact H].
  - destruct s as [| x s']; [discriminate |].
    destruct (p x) eqn:E; [| discriminate].
    exists (s', c). split; [| exact H]. exists x. auto.
  - apply IHa in H as [m [Hm H]]. apply IHb in H as [y [Hy H]].
    exists y. split; [| exact H]. exists m. destruct m; auto.
  - destruct (rmatch a k s c) as [o' |] eqn:E.
    + apply IHa in E as [y [Hy Hk]]. exists y. split; [left; exact Hy |].
      congruence.
    + apply IHb in H as [y [Hy Hk]]. exists y. split; [right; exact Hy | exact Hk].
  - apply (star_loop_sound (matches a) (rmatch a) g IHa) in H. exact H.
  - apply IHa in H as [m [Hm H]]. cbn beta in H.
    eexists. split; [exists m; split; [exact Hm | reflexivity] | exact H].
Qed.

Lemma exec_at_matches r s t c :
  exec_at r s = Some (t, c) -> matches r (s, []) (t, c).
Proof.
  unfold exec_at. intros H. apply rmatch_sound in H as [[t' c'] [Hm Hacc]].
  unfold accept in Hacc. simpl in Hacc. injection Hacc as <- <-. exact Hm.
Qed.

(** *** Consequences of a match *)

Lemma matches_length r : forall x y,
  matches r x y -> length (fst y) + minlen r <= length (fst x).
Proof.
  induction r as [| p | a IHa b IHb | a IHa b IHb | g a IHa | i a IHa];
    intros x y H; cbn [matches minlen] in *.
  - subst. lia.
  - destruct H as (ch & Hx & _ & _). rewrite Hx. simpl. lia.
  - destruct H as (m & Ha & Hb). apply IHa in Ha. apply IHb in Hb. lia.
  - destruct H as [H | H]; [apply IHa in H | apply IHb in H]; lia.
  - induction H as [x | x y z Hxy _ IH]; [lia |]. apply IHa in Hxy. lia.
  - destruct H as (m & Ha & ->). apply IHa in Ha. simpl. lia.
Qed.

Lemma matches_preserves i r : forall x y,
  matches r x y -> mentions i r = false ->
  capture i (snd y) = capture i (snd x).
Proof.
  induction r as [| p | a IHa b IHb | a IHa b IHb | g a IHa | j a IHa];
    intros x y H Hno; cbn [matches mentions] in *.
  - subst. reflexivity.
  - destruct H as (ch & _ & _ & ->). reflexivity.
  - apply orb_false_iff in Hno as [Hna Hnb].
    destruct H as (m & Ha & Hb).
    rewrite (IHb _ _ Hb Hnb). apply (IHa _ _ Ha Hna).
  - apply orb_false_iff in Hno as [Hna Hnb].
    destruct H as [H | H]; [apply (IHa _ _ H Hna) | apply (IHb _ _ H Hnb)].
  - induction H as [x | x y z Hxy _ IH]; [reflexivity |].
    rewrite IH. apply (IHa _ _ Hxy Hno).
  - apply orb_false_iff in Hno as [Hij Hna].
    destruct H as (m & Ha & ->). simpl. rewrite Hij. apply (IHa _ _ Ha Hna).
Qed.

(** A recorded group stays recorded. *)
Lemma matches_keeps i r : forall x y,
  matches r x y -> defined (capture i (snd x)) = true ->
  defined (capture i (snd y)) = true.
Proof.
  induction r as [| p | a IHa b IHb | a IHa b IHb | g a IHa | j a IHa];
    intros x y H Hdef; cbn [matches] in *.
  - subst. exact Hdef.
  - destruct H as (ch & _ & _ & ->). exact Hdef.
  - destruct H as (m & Ha & Hb). eauto.
  - destruct H as [H | H]; eauto.
  - induction H as [x | x y z Hxy _ IH]; eauto.
  - destruct H as (m & Ha & ->). simpl.
    destruct (Nat.eqb i j); [reflexivity | eauto].
Qed.

Lemma matches_records i r : forall x y,
  matches r x y -> records i r = true ->
  defined (capture i (snd y)) = true.
Proof.
  induction r as [| p | a IHa b IHb | a IHa b IHb | g a IHa | j a IHa];
    intros x y H Hrec; cbn [matches records] in *; try discriminate.
  - destruct H as (m & Ha & Hb).
    apply orb_true_iff in Hrec as [Hrec | Hrec].
    + apply (matches_keeps i b _ _ Hb). eauto.
    + eauto.
  - apply andb_true_iff in Hrec as [Hra Hrb]. destruct H as [H | H]; eauto.
  - destruct H as (m & Ha & ->). simpl.
    destruct (Nat.eqb i j); [reflexivity | eauto].
Qed.

Lemma matches_recordsText i r : forall x y,
  matches r x y -> recordsText i r = true ->
  truthy (capture i (snd y)) = true.
Proof.
  induction r as [| p | a IHa b IHb | a IHa b IHb | g a IHa | j a IHa];
    intros x y H Hrec; cbn [matches recordsText] in *; try discriminate.
  - destruct H as (m & Ha & Hb).
    apply orb_true_iff in Hrec as [Hrec | Hrec]; [eauto |].
    apply andb_true_iff in Hrec as [Hra Hnb].
    apply negb_true_iff in Hnb.
    rewrite (matches_preserves i b _ _ Hb Hnb). eauto.
  - apply andb_true_iff in Hrec as [Hra Hrb]. destruct H as [H | H]; eauto.
  - destruct H as (m & Ha & ->). simpl.
    destruct (Nat.eqb i j); [| eauto].
    apply Nat.leb_le in Hrec. apply matches_length in Ha.
    destruct (firstn _ _) eqn:E; [| reflexivity].
    apply (f_equal (@length _)) in E. rewrite length_firstn in E.
    simpl in E. lia.
Qed.

(** *** Searching *)

Lemma search_found r : forall s m,
  search r s = Some m ->
  exists t, exec_at r t = Some (rest m, groups m)
            /\ s = pre m ++ t
            /\ empty m = Nat.eqb (length (rest m)) (length t).
Proof.
  induction s as [| x s IH]; intros m H; cbn [search] in H.
  - destruct (exec_at r []) as [[t c] |] eqn:E; [| discriminate].
    injection H as <-. exists []. auto.
  - destruct (exec_at r (x :: s)) as [[t c] |] eqn:E.
    + injection H as <-. exists (x :: s). auto.
    + destruct (search r s) as [m' |]; [| discriminate].
      injection H as <-. destruct (IH m' eq_refl) as (t & Ht & Hs & He).
      exists t. cbn [pre rest empty groups]. subst s. auto.
Qed.

Lemma matchAll_found r : forall fuel s m,
  In m (matchAll_from fuel r s) ->
  exists t, exec_at r t = Some (rest m, groups m).
Proof.
  induction fuel as [| fuel IH]; intros s m H; cbn [matchAll_from] in H.
  - contradiction.
  - destruct (search r s) as [m0 |] eqn:E; [| contradiction].
    destruct H as [<- | H].
    + apply search_found in E as (t & Ht & _). eauto.
    + destruct (resume m0); [eauto | contradiction].
Qed.

(** Every match of a global scan is a reading of the pattern. *)
Lemma matchAll_matches r s m :
  In m (matchAll r s) ->
  exists t, matches r (t, []) (rest m, groups m).
Proof.
  intros H. apply matchAll_found in H as [t Ht].
  exists t. apply exec_at_matches. exact Ht.
Qed.

Lemma truthy_defined v : truthy v = true -> defined v = true.
Proof. destruct v as [[| x s] |]; simpl; congruence. Qed.

Lemma orElse_defined a b :
  truthy a = true \/ defined b = true -> defined (orElse a b) = true.
Proof.
  unfold orElse. destruct (truthy a) eqn:E.
  - intros _. apply truthy_defined. exact E.
  - intros [H | H]; [discriminate | exact H].
Qed.

Lemma captures_defined i r s :
  records i r = true ->
  Forall (fun v => defined v = true) (captures i (matchAll r s)).
Proof.
  intros Hrec. unfold captures. apply Forall_forall. intros v Hv.
  apply in_map_iff in Hv as (m & <- & Hm).
  apply matchAll_matches in Hm as [t Hm].
  exact (matches_records i r _ _ Hm Hrec).
Qed.

Lemma uniq_by_In {A} (eq : A -> A -> bool) : forall xs seen x,
  In x (uniq_by eq seen xs) -> In x xs.
Proof.
  induction xs as [| y xs IH]; intros seen x H; simpl in *; [exact H |].
  destruct (existsb (eq y) seen).
  - right. eauto.
  - destruct H as [-> | H]; [left; reflexivity | right; eauto].
Qed.

(** ** The fuel of the loops is enough

    The quantifier loop, the global scans and the parser of sources recurse
    on a counter that starts at the length of the text.  Each satisfies the
    equation of the unbounded loop it stands for. *)

(** A matcher looks at its continuation only on what is left of the
    input. *)
Lemma rmatch_ext (r : regex) : forall (k1 k2 : cont) s c,
  (forall s' c', length s' <= length s -> k1 s' c' = k2 s' c') ->
  rmatch r k1 s c = rmatch r k2 s c.
Proof.
  induction r as [| p | a IHa b IHb | a IHa b IHb | g a IHa | i a IHa];
    intros k1 k2 s c Hk; cbn [rmatch].
  - apply Hk. lia.
  - destruct s as [| x s]; [reflexivity |].
    destruct (p x); [apply Hk; simpl; lia | reflexivity].
  - apply IHa. intros s' c' Hs'. apply IHb. intros s'' c'' Hs''.
    apply Hk. lia.
  - rewrite (IHa k1 k2 s c Hk), (IHb k1 k2 s c Hk). reflexivity.
  - generalize (length s) as fuel. intros fuel. revert s c Hk.
    induction fuel as [| fuel IH]; intros s c Hk; cbn [star_loop].
    + apply Hk. lia.
    + rewrite (Hk s c (Nat.le_refl _)).
      replace (rmatch a (fun s' c' =>
                 if Nat.ltb (length s') (length s)
                 then star_loop g (rmatch a) fuel k1 s' c' else None) s c)
        with (rmatch a (fun s' c' =>
                 if Nat.ltb (length s') (length s)
                 then star_loop g (rmatch a) fuel k2 s' c' else None) s c);
        [reflexivity |].
      apply IHa. intros s' c' Hs'.
      destruct (Nat.ltb (length s') (length s)); [| reflexivity].
      symmetry. apply IH. intros s'' c'' Hs''. apply Hk. lia.
  - apply IHa. intros s' c' Hs'. cbv beta. apply Hk. exact Hs'.
Qed.

Lemma rmatch_none (r : regex) (k : cont) s c :
  (forall s' c', k s' c' = None) -> rmatch r k s c = None.
Proof.
  intros Hk. destruct (rmatch r k s c) as [o |] eqn:E; [| reflexivity].
  apply rmatch_sound in E as [y [_ Hy]]. rewrite Hk in Hy. discriminate.
Qed.

Lemma star_loop_fuel (g : bool) (a : regex) (k : cont) : forall f1 f2 s c,
  length s <= f1 -> length s <= f2 ->
  star_loop g (rmatch a) f1 k s c = star_loop g (rmatch a) f2 k s c.
Proof.
  assert (Hend : forall f c, star_loop g (rmatch a) f k [] c = k [] c).
  { intros [| f] c; cbn [star_loop]; [reflexivity |].
    rewrite rmatch_none by (intros s' c'; reflexivity).
    destruct g; [reflexivity |]. destruct (k [] c); reflexivity. }
  induction f1 as [| f1 IH]; intros f2 s c H1 H2.
  - destruct s; [| simpl in H1; lia]. rewrite !Hend. reflexivity.
  - destruct f2 as [| f2].
    + destruct s; [| simpl in H2; lia]. rewrite !Hend. reflexivity.
    + cbn [star_loop].
      replace (rmatch a (fun s' c' =>
                 if Nat.ltb (length s') (length s)
                 then star_loop g (rmatch a) f1 k s' c' else None) s c)
        with (rmatch a (fun s' c' =>
                 if Nat.ltb (length s') (length s)
                 then star_loop g (rmatch a) f2 k s' c' else None) s c);
        [reflexivity |].
      apply rmatch_ext. intros s' c' Hs'.
      destruct (Nat.ltb (length s') (length s)) eqn:E; [| reflexivity].
      apply Nat.ltb_lt in E. symmetry. apply IH; lia.
Qed.

(** The quantifier as RepeatMatcher defines it: one more iteration that
    reads something and then the quantifier again, or the continuation;
    the greedy quantifier tries the iteration first, the lazy one the
    continuation. *)
Theorem rmatch_star_unfold (g : bool) (a : regex) (k : cont) s c :
  rmatch (Star g a) k s c =
  let again :=
    rmatch a (fun s' c' =>
                if Nat.ltb (length s') (length s)
                then rmatch (Star g a) k s' c' else None) s c in
  if g
  then match again with Some o => Some o | None => k s c end
  else match k s c with Some o => Some o | None => again end.
Proof.
  cbv zeta. cbn [rmatch].
  rewrite (star_loop_fuel g a k (length s) (S (length s)) s c) by lia.
  cbn [star_loop].
  replace (rmatch a (fun s' c' =>
             if Nat.ltb (length s') (length s)
             then star_loop g (rmatch a) (length s) k s' c' else None) s c)
    with (rmatch a (fun s' c' =>
             if Nat.ltb (length s') (length s)
             then star_loop g (rmatch a) (length s') k s' c' else None) s c);
    [reflexivity |].
  apply rmatch_ext. intros s' c' Hs'.
  destruct (Nat.ltb (length s') (length s)) eqn:E; [| reflexivity].
  apply Nat.ltb_lt in E. apply star_loop_fuel; lia.
Qed.

(** What is left after a match is shorter than the text searched, unless
    the match is empty. *)
Lemma search_rest r s m :
  search r s = Some m ->
  length (rest m) <= length s
  /\ (empty m = false -> length (rest m) < length s).
Proof.
  intros H. apply search_found in H as (t & Ht & Hs & He).
  apply exec_at_matches, matches_length in Ht. cbn [fst] in Ht.
  subst s. rewrite length_app. split; [lia |].
  rewrite He. intros Hne. apply Nat.eqb_neq in Hne. lia.
Qed.

Lemma resume_shorter r s m t :
  search r s = Some m -> resume m = Some t -> length t < length s.
Proof.
  intros Hs Hr. apply search_rest in Hs as [Hle Hlt]. unfold resume in Hr.
  destruct (empty m).
  - destruct (rest m) as [| x u]; [discriminate |].
    injection Hr as <-. simpl in Hle. lia.
  - injection Hr as <-. auto.
Qed.

Lemma matchAll_from_fuel r : forall f1 f2 s,
  length s < f1 -> length s < f2 ->
  matchAll_from f1 r s = matchAll_from f2 r s.
Proof.
  induction f1 as [| f1 IH]; intros f2 s H1 H2; [lia |].
  destruct f2 as [| f2]; [lia |]. cbn [matchAll_from].
  destruct (search r s) as [m |] eqn:E; [| reflexivity].
  destruct (resume m) as [t |] eqn:Er; [| reflexivity].
  pose proof (resume_shorter r s m t E Er). f_equal. apply IH; lia.
Qed.

(** The global scan: the leftmost match, then the scan of what follows. *)
Theorem matchAll_unfold r s :
  matchAll r s =
  match search r s with
  | None => []
  | Some m =>
      m :: match resume m with
           | Some t => matchAll r t
           | None => []
           end
  end.
Proof.
  unfold matchAll at 1. cbn [matchAll_from].
  destruct (search r s) as [m |] eqn:E; [| reflexivity].
  destruct (resume m) as [t |] eqn:Er; [| reflexivity].
  pose proof (resume_shorter r s m t E Er). f_equal.
  unfold matchAll. apply matchAll_from_fuel; lia.
Qed.

Lemma replaceAll_from_fuel r by_ : forall f1 f2 s,
  length s < f1 -> length s < f2 ->
  replaceAll_from f1 r by_ s = replaceAll_from f2 r by_ s.
Proof.
  induction f1 as [| f1 IH]; intros f2 s H1 H2; [lia |].
  destruct f2 as [| f2]; [lia |]. cbn [replaceAll_from].
  destruct (search r s) as [m |] eqn:E; [| reflexivity].
  apply search_rest in E as [Hle Hlt]. do 2 f_equal.
  destruct (empty m).
  - destruct (rest m) as [| x t]; [reflexivity |].
    f_equal. apply IH; simpl in Hle; lia.
  - specialize (Hlt eq_refl). apply IH; lia.
Qed.

(** The global replacement: the text before the leftmost match, the
    replacement, then the replacement in what follows. *)
Theorem replaceAll_unfold r by_ s :
  replaceAll r by_ s =
  match search r s with
  | None => s
  | Some m =>
      pre m ++ by_ ++
      (if empty m
       then match rest m with
            | [] => []
            | x :: t => x :: replaceAll r by_ t
            end
       else replaceAll r by_ (rest m))
  end.
Proof.
  unfold replaceAll at 1. cbn [replaceAll_from].
  destruct (search r s) as [m |] eqn:E; [| reflexivity].
  apply search_rest in E as [Hle Hlt]. do 2 f_equal.
  destruct (empty m).
  - destruct (rest m) as [| x t]; [reflexivity |].
    f_equal. unfold replaceAll. apply replaceAll_from_fuel; simpl in *; lia.
  - specialize (Hlt eq_refl). unfold replaceAll.
    apply replaceAll_from_fuel; lia.
Qed.

Lemma class_members_shorter : forall s ms t,
  class_members s = Some (ms, t) -> length t < length s.
Proof.
  induction s as [| x s IH]; intros ms t; cbn [class_members];
    [discriminate |].
  destruct (eqc x (chr "]")).
  - intros H. injection H as <- <-. simpl. lia.
  - destruct (mem x (js "\-[")); [discriminate |].
    destruct (class_members s) as [[ms' t'] |]; [| discriminate].
    intros H. injection H as <- <-. specialize (IH ms' t' eq_refl).
    simpl. lia.
Qed.

Lemma parse_atom_shorter i s a t :
  parse_atom i s = Some (a, t) -> length t < length s.
Proof.
  unfold parse_atom. destruct s as [| x s]; [discriminate |].
  destruct (eqc x (chr ".")).
  { intros H. injection H as <- <-. simpl. lia. }
  destruct (eqc x (chr "[")).
  - destruct s as [| y s'].
    + simpl. discriminate.
    + assert (Hb : forall body,
                length body <= length (y :: s') ->
                match class_members body with
                | Some (ms, t0) =>
                    if i && negb (forallb is_ascii ms) then None
                    else Some (Class (class_pred i
                                 (if eqc y (chr "^") then true else false) ms),
                               t0)
                | None => None
                end = Some (a, t) -> length t < length (x :: y :: s')).
      { intros body Hlen.
        destruct (class_members body) as [[ms t0] |] eqn:E; [| discriminate].
        apply class_members_shorter in E.
        destruct (i && negb (forallb is_ascii ms)); [discriminate |].
        intros H. injection H as _ <-. simpl in *. lia. }
      destruct (eqc y (chr "^")); apply Hb; simpl; lia.
  - destruct (atom_char i x); [| discriminate].
    intros H. injection H as <- <-. simpl. lia.
Qed.

Lemma parse_terms_fuel i : forall f1 f2 s,
  length s < f1 -> length s < f2 -> parse_terms f1 i s = parse_terms f2 i s.
Proof.
  induction f1 as [| f1 IH]; intros f2 s H1 H2; [lia |].
  destruct f2 as [| f2]; [lia |]. cbn [parse_terms].
  destruct s as [| x s]; [reflexivity |].
  destruct (parse_atom i (x :: s)) as [[a t] |] eqn:E; [| reflexivity].
  apply parse_atom_shorter in E.
  assert (Hnext : forall t', length t' <= length t ->
            parse_terms f1 i t' = parse_terms f2 i t').
  { intros t' Ht'. apply IH; simpl in *; lia. }
  destruct t as [| y t1]; [rewrite Hnext by lia; reflexivity |].
  destruct (eqc y (chr "*")); rewrite Hnext by (simpl; lia); reflexivity.
Qed.

(** ** No exception escapes the builder *)

(** No dependency is [undefined]. *)
Lemma extractDependencies_defined content :
  Forall (fun v => defined v = true) (extractDependencies content).
Proof.
  unfold extractDependencies. apply Forall_forall. intros v Hv.
  apply uniq_by_In in Hv. revert v Hv. apply Forall_forall.
  apply Forall_app. split; [| apply Forall_app; split].
  - apply captures_defined. reflexivity.
  - apply Forall_forall. intros v Hv.
    apply in_map_iff in Hv as (m & <- & Hm).
    apply matchAll_matches in Hm as [t Hm].
    apply orElse_defined.
    unfold Patterns.pythonImport in Hm. cbn [matches] in Hm.
    destruct Hm as [Hm | Hm].
    + left. exact (matches_recordsText 1 _ _ _ Hm eq_refl).
    + right. exact (matches_records 2 _ _ _ Hm eq_refl).
  - apply captures_defined. reflexivity.
Qed.

Lemma dependencyTags_total deps :
  Forall (fun v => defined v = true) deps ->
  exists tags, dependencyTags deps = Ok tags.
Proof.
  induction 1 as [| [dep |] more Hdef _ [tags IH]]; cbn [dependencyTags].
  - eexists. reflexivity.
  - rewrite IH. eexists. reflexivity.
  - discriminate.
Qed.

Lemma generateTags_total filePath analysis :
  Forall (fun v => defined v = true) (Analysis.dependencies analysis) ->
  exists tags, generateTags filePath analysis = Ok tags.
Proof.
  intros H. apply dependencyTags_total in H as [depTags H].
  unfold generateTags. rewrite H. eexists. reflexivity.
Qed.

Lemma extractFirstComment_total content :
  exists comment, extractFirstComment content = Ok comment.
Proof.
  unfold extractFirstComment.
  destruct (search Patterns.blockComment content) as [m |] eqn:E.
  - apply search_found in E as (t & Ht & _).
    apply exec_at_matches in Ht.
    pose proof (matches_records 1 _ _ _ Ht eq_refl) as Hdef. simpl in Hdef.
    destruct (capture 1 (groups m)); [| discriminate].
    eexists. reflexivity.
  - destruct (commentLines (split_lines content)); eexists; reflexivity.
Qed.



Lemma matchesAny_total filePath patterns :
  forallb (fun p => constructs false (regexPattern p)) patterns = true ->
  exists hit, matchesAny filePath patterns = Ok hit.
Proof.
  induction patterns as [| pattern more IH]; cbn [matchesAny forallb]; intros H.
  - eexists. reflexivity.
  - apply andb_true_iff in H as [Hhead Hmore].
    unfold matchesPattern, constructs in *.
    destruct (construct (regexPattern pattern) false) as [re |]; [| discriminate].
    cbn [bind]. destruct (test re filePath); [eexists; reflexivity | auto].
Qed.

(** The patterns of the constructor's configuration are all accepted. *)
Lemma shouldProcessFile_total filePath :
  exists eligible, shouldProcessFile defaultConfig filePath = Ok eligible.
Proof.
  unfold shouldProcessFile.
  destruct (matchesAny_total filePath (excludePatterns defaultConfig))
    as [ex Hex]; [vm_compute; reflexivity |].
  destruct (matchesAny_total filePath (includePatterns defaultConfig))
    as [inc Hinc]; [vm_compute; reflexivity |].
  rewrite Hex. cbn [bind]. destruct ex; [eexists; reflexivity |].
  rewrite Hinc. cbn [bind]. destruct inc; eexists; reflexivity.
Qed.

Lemma signatureFires_total content patterns :
  forallb (constructs true) patterns = true ->
  exists hit, signatureFires content patterns = Ok hit.
Proof.
  induction patterns as [| pattern more IH]; cbn [signatureFires forallb];
    intros H.
  - eexists. reflexivity.
  - apply andb_true_iff in H as [Hhead Hmore]. unfold constructs in Hhead.
    destruct (construct pattern true) as [re |]; [| discriminate].
    cbn [bind]. destruct (test re content); [eexists; reflexivity | auto].
Qed.

Lemma detectFrameworkIn_total content table :
  forallb (fun f => forallb (constructs true) (snd f)) table = true ->
  exists framework, detectFrameworkIn content table = Ok framework.
Proof.
  induction table as [| [name patterns] more IH];
    cbn [detectFrameworkIn forallb]; intros H.
  - eexists. reflexivity.
  - apply andb_true_iff in H as [Hhead Hmore]. cbn [snd] in Hhead.
    destruct (signatureFires_total content patterns Hhead) as [hit Hhit].
    rewrite Hhit. cbn [bind]. destruct hit; [eexists; reflexivity | auto].
Qed.

Lemma detectFramework_total content :
  exists framework, detectFramework content = Ok framework.
Proof. apply detectFrameworkIn_total. vm_compute. reflexivity. Qed.

Lemma generateSummary_total content :
  exists summary, generateSummary content = Ok summary.
Proof.
  unfold generateSummary.
  destruct (extractFirstComment_total content) as [comment ->]. cbn [bind].
  destruct comment as [[| x s] |]; eexists; reflexivity.
Qed.

Lemma analyzeContent_total content fileType :
  exists analysis,
    analyzeContent content fileType = Ok analysis
    /\ Analysis.dependencies analysis = extractDependencies content.
Proof.
  unfold analyzeContent.
  destruct (detectFramework_total content) as [framework ->].
  destruct (generateSummary_total content) as [summary ->].
  cbn [bind]. eexists. split; reflexivity.
Qed.

(** C3, as stated, fails on the code: only the fallback is cut to 200
    characters; a summary taken from a comment is returned whole. *)
Lemma generateSummary_comment_not_truncated :
  generateSummary (js "// " ++ repeat (chr "a") 201)
    = Ok (repeat (chr "a") 201)
  /\ 200 < length (repeat (chr "a") 201).
Proof.
  split.
  - vm_compute. reflexivity.
  - rewrite repeat_length. lia.
Qed.

(** C3, amended.  [extractFirstComment] always returns; when it finds no
    comment, or an empty one, the summary is the first three lines that are
    not blank, joined by spaces and cut to 200 characters, so it has at most
    200 characters; a comment that is not empty is the summary as it is. *)
Theorem generateSummary_fallback_bounded (content : jsstring) :
  exists comment,
    extractFirstComment content = Ok comment
    /\ if truthy comment
       then generateSummary content = Ok (toStr comment)
       else exists summary,
              generateSummary content = Ok summary
              /\ summary
                 = substring0 200
                     (join (js " ")
                        (firstn 3
                           (List.filter
                              (fun line => Nat.ltb 0 (length (trim line)))
                              (split_lines content))))
              /\ length summary <= 200.
Proof.
  destruct (extractFirstComment_total content) as [comment Hc].
  exists comment. split; [exact Hc |].
  unfold generateSummary. rewrite Hc. cbn [bind].
  assert (Hcut : forall s : jsstring, length (substring0 200 s) <= 200).
  { intros s. unfold substring0. rewrite length_firstn. lia. }
  destruct comment as [[| x s] |]; cbn [truthy toStr].
  - eexists. split; [reflexivity | split; [reflexivity | apply Hcut]].
  - reflexivity.
  - eexists. split; [reflexivity | split; [reflexivity | apply Hcut]].
Qed.

(** C2.  [extractKnowledge] never throws.  It returns [null] exactly when
    [shouldProcessFile] rejects the path; for an eligible path, whatever the
    content, the analysis and the tags are computed and the item carries
    every field. *)
Theorem extractKnowledge_total (Date : Type) (host : Host)
    (fileInfo : FileInfo.t Date) :
  exists eligible analysis tags,
    shouldProcessFile defaultConfig (FileInfo.filePath fileInfo) = Ok eligible
    /\ analyzeContent (FileInfo.content fileInfo)
         (getFileType host (FileInfo.filePath fileInfo)) = Ok analysis
    /\ generateTags (FileInfo.filePath fileInfo) analysis = Ok tags
    /\ extractKnowledge host fileInfo
       = Ok (if eligible
             then Some {|
               KnowledgeItem.id :=
                 generateId (FileInfo.repository fileInfo)
                            (FileInfo.filePath fileInfo);
               KnowledgeItem.title :=
                 generateTitle host (FileInfo.filePath fileInfo) analysis;
               KnowledgeItem.content :=
                 prepareContent (FileInfo.content fileInfo) analysis
                                (FileInfo.filePath fileInfo);
               KnowledgeItem.metadata := {|
                 Metadata.repository := FileInfo.repository fileInfo;
                 Metadata.filePath := FileInfo.filePath fileInfo;
                 Metadata.fileType :=
                   getFileType host (FileInfo.filePath fileInfo);
                 Metadata.lastModified := FileInfo.lastModified fileInfo;
                 Metadata.contentHash :=
                   md5hex host (FileInfo.content fileInfo);
                 Metadata.tags := tags;
                 Metadata.language := Analysis.language analysis;
                 Metadata.framework := Analysis.framework analysis;
                 Metadata.dependencies := Analysis.dependencies analysis
               |}
             |}
             else None)
    /\ (extractKnowledge host fileInfo = Ok None
        <-> shouldProcessFile defaultConfig (FileInfo.filePath fileInfo)
            = Ok false).
Proof.
  destruct (shouldProcessFile_total (FileInfo.filePath fileInfo))
    as [eligible Helig].
  destruct (analyzeContent_total (FileInfo.content fileInfo)
              (getFileType host (FileInfo.filePath fileInfo)))
    as (analysis & Han & Hdeps).
  destruct (generateTags_total (FileInfo.filePath fileInfo) analysis)
    as [tags Htags].
  { rewrite Hdeps. apply extractDependencies_defined. }
  exists eligible, analysis, tags.
  split; [exact Helig |]. split; [exact Han |]. split; [exact Htags |].
  unfold extractKnowledge. rewrite Helig. cbn [bind].
  destruct eligible; cbn [negb].
  - rewrite Han. cbn [bind]. rewrite Htags. cbn [bind].
    split; [reflexivity |]. split; discriminate.
  - split; [reflexivity |]. split; reflexivity.
Qed.

Lemma extractKnowledge_total_example :
  exists item,
    extractKnowledge Example.host
      (Example.file (js "acme/app") (js "src/auth/login.js")
         (js "// Handles user login" ++ nl ++
          js "function login(user) { if (user) { return true; } }"))
    = Ok (Some item)
    /\ KnowledgeItem.id item = js "acme_app_src_auth_login_js"
    /\ KnowledgeItem.title item = js "login.js - login"
    /\ Metadata.fileType (KnowledgeItem.metadata item) = js "javascript"
    /\ Metadata.tags (KnowledgeItem.metadata item)
       = [js "javascript"; js "functions"; js "simple"].
Proof. eexists. vm_compute. repeat split; reflexivity. Qed.

(** ** Complexity *)

Lemma rmatch_lit l k : forall s c,
  rmatch (lit l) k s c
  = match strip l s with Some t => k t c | None => None end.
Proof.
  induction l as [| x l IH]; intros s c; cbn [lit rmatch strip Chr].
  - reflexivity.
  - destruct s as [| y s]; [reflexivity |].
    destruct (eqc x y); [apply IH | reflexivity].
Qed.

(** A greedy run over a class, followed by something that cannot start with
    a character of the class, reads the whole run. *)
Lemma star_class_greedy p k :
  (forall x t c, p x = true -> k (x :: t) c = None) ->
  forall fuel s c, length s <= fuel ->
    star_loop true (rmatch (Class p)) fuel k s c = k (dropWhile p s) c.
Proof.
  intros Hk. induction fuel as [| fuel IH]; intros s c Hlen.
  - destruct s; [reflexivity | simpl in Hlen; lia].
  - cbn [star_loop rmatch]. destruct s as [| x s]; [reflexivity |].
    cbn [dropWhile]. destruct (p x) eqn:E; [| reflexivity].
    replace (Nat.ltb (length s) (length (x :: s))) with true
      by (symmetry; apply Nat.ltb_lt; simpl; lia).
    rewrite IH by (simpl in Hlen; lia).
    destruct (k (dropWhile p s) c) eqn:Ek; [reflexivity |].
    apply Hk. exact E.
Qed.



Lemma paren_not_space x : is_space x = true -> eqc (chr "(") x = false.
Proof.
  intros H. destruct (eqc (chr "(") x) eqn:E; [| reflexivity].
  apply eqc_eq in E. subst x. vm_compute in H. discriminate.
Qed.

Lemma exec_at_keywordParen kw s :
  exec_at (Patterns.keywordParen kw) s = ended (keywordHit kw s).
Proof.
  unfold exec_at, Patterns.keywordParen, keywordHit. cbn [rmatch].
  rewrite rmatch_lit. destruct (strip kw s) as [t |]; [| reflexivity].
  unfold Patterns.ws. rewrite star_class_greedy.
  - cbn [rmatch Chr]. destruct (dropWhile is_space t) as [| x rest];
      [reflexivity |].
    destruct (eqc (chr "(") x); reflexivity.
  - intros x u c Hx. cbn [rmatch Chr]. rewrite (paren_not_space x Hx).
    reflexivity.
  - lia.
Qed.

Lemma exec_at_logicalOp s :
  exec_at Patterns.logicalOp s = ended (logicalHit s).
Proof.
  unfold exec_at, Patterns.logicalOp, logicalHit. cbn [rmatch].
  rewrite !rmatch_lit. unfold accept.
  destruct (strip (js "&&") s); [reflexivity |].
  destruct (strip (js "||") s); reflexivity.
Qed.

(** *** Counting the matches of a pattern without groups *)

Section Counting.

Variable r : regex.
Variable hit : jsstring -> option jsstring.

Hypothesis exec_hit : forall s, exec_at r s = ended (hit s).
Hypothesis hit_shorter : forall s t, hit s = Some t -> length t < length s.



Lemma matchAll_from_skip fuel x s :
  hit (x :: s) = None ->
  length (matchAll_from fuel r (x :: s)) = length (matchAll_from fuel r s).
Proof.
  intros Hnone. destruct fuel as [| fuel]; [reflexivity |].
  cbn [matchAll_from search]. rewrite exec_hit, Hnone. cbn [ended].
  destruct (search r s) as [m |]; reflexivity.
Qed.

Lemma matchAll_from_count : forall n s f1 f2,
  length s <= n -> length s < f1 -> length s < f2 ->
  length (matchAll_from f1 r s) = count_from hit f2 s.
Proof.
  induction n as [| n IH]; intros s f1 f2 Hn H1 H2.
  - destruct s; [| simpl in Hn; lia].
    destruct f1 as [| f1]; [lia |]. destruct f2 as [| f2]; [lia |].
    cbn [matchAll_from search count_from]. rewrite exec_hit.
    destruct (hit []) as [t |] eqn:E; [| reflexivity].
    apply hit_shorter in E. simpl in E. lia.
  - destruct f2 as [| f2]; [lia |]. cbn [count_from].
    destruct (hit s) as [t |] eqn:E.
    + destruct f1 as [| f1]; [lia |].
      pose proof (hit_shorter _ _ E) as Hshort.
      cbn [matchAll_from]. destruct s as [| x s];
        cbn [search]; rewrite exec_hit, E; cbn [ended];
        unfold resume; cbn [empty rest];
        (replace (Nat.eqb (length t) _) with false
           by (symmetry; apply Nat.eqb_neq; lia));
        cbn [length]; f_equal; apply IH; simpl in *; lia.
    + destruct s as [| x s].
      * destruct f1 as [| f1]; [lia |].
        cbn [matchAll_from search]. rewrite exec_hit, E. reflexivity.
      * rewrite (matchAll_from_skip f1 x s E).
        apply IH; simpl in *; lia.
Qed.

Lemma occurrences_count s : occurrences r s = count_from hit (S (length s)) s.
Proof.
  unfold occurrences, matchAll.
  apply (matchAll_from_count (length s)); lia.
Qed.

Hypothesis hit_stable : forall s t u,
  hit s = Some t -> hit (s ++ u) = Some (t ++ u).

(** A match that needs the appended text is not preceded, in the scan of
    the text alone, by any later match. *)
Hypothesis hit_late : forall x s u t fuel,
  hit (x :: s) = None -> hit ((x :: s) ++ u) = Some t ->
  count_from hit fuel s = 0.

Lemma count_from_monotone u : forall n s f1 f2,
  length s <= n -> length s < f1 -> length (s ++ u) < f2 ->
  count_from hit f1 s <= count_from hit f2 (s ++ u).
Proof.
  induction n as [| n IH]; intros s f1 f2 Hn H1 H2.
  - destruct s; [| simpl in Hn; lia].
    destruct f1 as [| f1]; [lia |]. cbn [count_from].
    destruct (hit []) as [t |] eqn:E; [| lia].
    apply hit_shorter in E. simpl in E. lia.
  - destruct f1 as [| f1]; [lia |]. destruct f2 as [| f2]; [lia |].
    cbn [count_from]. destruct (hit s) as [t |] eqn:E.
    + rewrite (hit_stable _ _ u E).
      pose proof (hit_shorter _ _ E) as Hshort.
      apply le_n_S. apply IH; rewrite ?length_app in *; lia.
    + destruct s as [| x s]; [lia |].
      destruct (hit ((x :: s) ++ u)) as [t |] eqn:E'.
      * rewrite (hit_late _ _ _ _ f1 E E'). lia.
      * cbn [app]. apply IH; simpl in *; lia.
Qed.

Lemma occurrences_monotone s u :
  occurrences r s <= occurrences r (s ++ u).
Proof.
  rewrite !occurrences_count.
  apply (count_from_monotone u (length s)); lia.
Qed.

End Counting.

Lemma strip_app_some p : forall s t u,
  strip p s = Some t -> strip p (s ++ u) = Some (t ++ u).
Proof.
  induction p as [| x p IH]; intros s t u; cbn [strip].
  - intros H. injection H as <-. reflexivity.
  - destruct s as [| y s]; [discriminate |]. cbn [app].
    destruct (eqc x y); [apply IH | discriminate].
Qed.

(** A prefix test that fails on [s] and succeeds once text is appended:
    [s] is a proper prefix of the text looked for. *)
Lemma strip_app_none p : forall s t u,
  strip p s = None -> strip p (s ++ u) = Some t ->
  exists p2, p = s ++ p2 /\ length s < length p.
Proof.
  induction p as [| x p IH]; intros s t u; cbn [strip].
  - discriminate.
  - destruct s as [| y s].
    + intros _ _. exists (x :: p). split; [reflexivity | simpl; lia].
    + cbn [app strip]. destruct (eqc x y) eqn:E; [| discriminate].
      apply eqc_eq in E. subst y. intros Hnone Hsome.
      destruct (IH _ _ _ Hnone Hsome) as (p2 & -> & Hlen).
      exists p2. split; [reflexivity | simpl; lia].
Qed.

Lemma strip_length p : forall s t,
  strip p s = Some t -> length t + length p = length s.
Proof.
  intros s t H. apply strip_some in H. subst s. rewrite length_app. lia.
Qed.

Lemma dropWhile_length p (s : jsstring) : length (dropWhile p s) <= length s.
Proof.
  induction s as [| x s IH]; simpl; [lia |].
  destruct (p x); simpl; lia.
Qed.

Lemma dropWhile_In p (s : jsstring) x : In x (dropWhile p s) -> In x s.
Proof.
  induction s as [| y s IH]; simpl; [auto |].
  destruct (p y); simpl; auto.
Qed.

Section KeywordCount.

Variable kw : jsstring.
Hypothesis kw_no_paren : ~ In (chr "(") kw.

Lemma keywordHit_shorter s t : keywordHit kw s = Some t -> length t < length s.
Proof.
  unfold keywordHit. destruct (strip kw s) as [t1 |] eqn:E; [| discriminate].
  apply strip_length in E. pose proof (dropWhile_length is_space t1) as Hd.
  destruct (dropWhile is_space t1) as [| x rest]; [discriminate |].
  destruct (eqc (chr "(") x); [| discriminate].
  intros H. injection H as <-. simpl in Hd. lia.
Qed.

Lemma keywordHit_stable s t u :
  keywordHit kw s = Some t -> keywordHit kw (s ++ u) = Some (t ++ u).
Proof.
  unfold keywordHit. destruct (strip kw s) as [t1 |] eqn:E; [| discriminate].
  rewrite (strip_app_some kw s t1 u E), dropWhile_app.
  destruct (dropWhile is_space t1) as [| x rest] eqn:Ed; [discriminate |].
  assert (Hblank : forallb is_space t1 = false).
  { destruct (forallb is_space t1) eqn:Hb; [| reflexivity].
    apply dropWhile_nil in Hb. congruence. }
  rewrite Hblank. cbn [app].
  destruct (eqc (chr "(") x); [| discriminate].
  intros H. injection H as <-. reflexivity.
Qed.

Lemma keywordHit_paren s t : keywordHit kw s = Some t -> In (chr "(") s.
Proof.
  unfold keywordHit. destruct (strip kw s) as [t1 |] eqn:E; [| discriminate].
  apply strip_some in E. subst s.
  destruct (dropWhile is_space t1) as [| x rest] eqn:Ed; [discriminate |].
  destruct (eqc (chr "(") x) eqn:Ex; [| discriminate].
  intros _. apply eqc_eq in Ex. subst x.
  apply in_or_app. right. apply (dropWhile_In is_space). rewrite Ed.
  left. reflexivity.
Qed.

Lemma keywordHit_needs_appended s u t :
  keywordHit kw s = None -> keywordHit kw (s ++ u) = Some t ->
  ~ In (chr "(") s.
Proof.
  unfold keywordHit. intros Hnone Hsome Hin.
  destruct (strip kw s) as [t1 |] eqn:E.
  - rewrite (strip_app_some kw s t1 u E), dropWhile_app in Hsome.
    destruct (forallb is_space t1) eqn:Hb.
    + apply strip_some in E. subst s.
      apply in_app_or in Hin as [Hin | Hin]; [exact (kw_no_paren Hin) |].
      pose proof (proj1 (forallb_forall _ _) Hb _ Hin) as Hsp.
      vm_compute in Hsp. discriminate.
    + destruct (dropWhile is_space t1) as [| x rest] eqn:Ed.
      * apply dropWhile_nil in Ed. congruence.
      * cbn [app] in Hsome. destruct (eqc (chr "(") x); discriminate.
  - destruct (strip kw (s ++ u)) as [t2 |] eqn:E2; [| discriminate].
    destruct (strip_app_none kw s t2 u E E2) as (p2 & Hkw & _).
    apply kw_no_paren. rewrite Hkw. apply in_or_app. left. exact Hin.
Qed.

Lemma count_from_no_paren : forall fuel s,
  ~ In (chr "(") s -> count_from (keywordHit kw) fuel s = 0.
Proof.
  induction fuel as [| fuel IH]; intros s Hno; cbn [count_from];
    [reflexivity |].
  destruct (keywordHit kw s) as [t |] eqn:E.
  - apply keywordHit_paren in E. contradiction.
  - destruct s as [| x s]; [reflexivity |].
    apply IH. intros Hin. apply Hno. right. exact Hin.
Qed.

Lemma occurrences_keyword_monotone s u :
  occurrences (Patterns.keywordParen kw) s
  <= occurrences (Patterns.keywordParen kw) (s ++ u).
Proof.
  apply (occurrences_monotone (Patterns.keywordParen kw) (keywordHit kw)).
  - apply exec_at_keywordParen.
  - apply keywordHit_shorter.
  - apply keywordHit_stable.
  - intros x s' u' t fuel Hnone Hsome.
    apply count_from_no_paren. intros Hin.
    apply (keywordHit_needs_appended _ _ _ Hnone Hsome). right. exact Hin.
Qed.

End KeywordCount.

Lemma logicalHit_shorter s t : logicalHit s = Some t -> length t < length s.
Proof.
  unfold logicalHit. destruct (strip (js "&&") s) as [t1 |] eqn:E.
  - intros H. injection H as <-. apply strip_length in E. simpl in E. lia.
  - intros H. apply strip_length in H. simpl in H. lia.
Qed.

Lemma logicalHit_stable s t u :
  logicalHit s = Some t -> logicalHit (s ++ u) = Some (t ++ u).
Proof.
  unfold logicalHit. destruct (strip (js "&&") s) as [t1 |] eqn:E.
  - intros H. injection H as <-.
    rewrite (strip_app_some _ _ _ u E). reflexivity.
  - intros H. destruct (strip (js "&&") (s ++ u)) as [t2 |] eqn:E2.
    + destruct (strip_app_none _ _ _ _ E E2) as (p2 & Hp & Hlen).
      apply strip_some in H. subst s.
      destruct t as [| a t]; [| rewrite length_app in Hlen; simpl in Hlen; lia].
      rewrite app_nil_r in Hp. destruct p2; vm_compute in Hp; discriminate.
    + apply strip_app_some. exact H.
Qed.

Lemma occurrences_logicalOp_monotone s u :
  occurrences Patterns.logicalOp s <= occurrences Patterns.logicalOp (s ++ u).
Proof.
  apply (occurrences_monotone Patterns.logicalOp logicalHit).
  - apply exec_at_logicalOp.
  - apply logicalHit_shorter.
  - apply logicalHit_stable.
  - intros x s' u' t fuel Hnone Hsome.
    assert (Hs : s' = []).
    { unfold logicalHit in *.
      destruct (strip (js "&&") (x :: s')) eqn:E1; [discriminate |].
      destruct (strip (js "&&") ((x :: s') ++ u')) as [t2 |] eqn:E2.
      - destruct (strip_app_none _ _ _ _ E1 E2) as (_ & _ & Hlen).
        destruct s'; [reflexivity | simpl in Hlen; lia].
      - destruct (strip_app_none _ _ _ _ Hnone Hsome) as (_ & _ & Hlen).
        destruct s'; [reflexivity | simpl in Hlen; lia]. }
    subst s'. destruct fuel; reflexivity.
Qed.

(** C8.  Appending text never lowers the complexity score. *)
Theorem calculateComplexity_monotone (s t : jsstring) :
  calculateComplexity s <= calculateComplexity (s ++ t).
Proof.
  assert (Hkw : forall kw : string,
             (if mem (chr "(") (js kw) then False else True) ->
             occurrences (Patterns.keywordParen (js kw)) s
             <= occurrences (Patterns.keywordParen (js kw)) (s ++ t)).
  { intros kw Hno. apply occurrences_keyword_monotone. intros Hin.
    assert (Hmem : mem (chr "(") (js kw) = true).
    { unfold mem. apply existsb_exists. exists (chr "(").
      split; [exact Hin | apply eqc_refl]. }
    rewrite Hmem in Hno. exact Hno. }
  unfold calculateComplexity.
  pose proof (Hkw "if"%string I). pose proof (Hkw "for"%string I).
  pose proof (Hkw "while"%string I). pose proof (Hkw "switch"%string I).
  pose proof (Hkw "catch"%string I).
  pose proof (occurrences_logicalOp_monotone s t).
  lia.
Qed.

Lemma calculateComplexity_monotone_example :
  calculateComplexity (js "if (a && b) { while") = 2
  /\ calculateComplexity (js "if (a && b) { while" ++ js " (c) {} }") = 3.
Proof. split; vm_compute; reflexivity. Qed.

(** * Further properties *)

(** ** Identity *)

Lemma sanitize_word c : is_word (sanitize c) = true.
Proof.
  unfold sanitize, is_word. destruct (is_alnum c) eqn:E.
  - rewrite E. reflexivity.
  - reflexivity.
Qed.

Lemma sanitize_idempotent c : sanitize (sanitize c) = sanitize c.
Proof.
  unfold sanitize. destruct (is_alnum c) eqn:E.
  - rewrite E. reflexivity.
  - reflexivity.
Qed.

(** X1.  An id is made of the characters [a-zA-Z0-9_] only, has one
    character more than the repository and the path together, and is not
    changed by cleaning the repository and the path again. *)
Theorem generateId_identifier_safe (repository filePath : jsstring) :
  Forall (fun c => is_word c = true) (generateId repository filePath)
  /\ length (generateId repository filePath)
     = length repository + 1 + length filePath
  /\ generateId (List.map sanitize repository) (List.map sanitize filePath)
     = generateId repository filePath.
Proof.
  rewrite !generateId_spec. split; [| split].
  - apply Forall_app. split; [| apply Forall_app; split].
    + apply Forall_forall. intros c Hc.
      apply in_map_iff in Hc as (x & <- & _). apply sanitize_word.
    + repeat constructor.
    + apply Forall_forall. intros c Hc.
      apply in_map_iff in Hc as (x & <- & _). apply sanitize_word.
  - rewrite !length_app, !length_map. simpl. lia.
  - rewrite !map_map.
    rewrite (map_ext _ sanitize sanitize_idempotent repository).
    rewrite (map_ext _ sanitize sanitize_idempotent filePath).
    reflexivity.
Qed.

(** ** Extracted names *)

Lemma eqs_eq (a b : jsstring) : eqs a b = true <-> a = b.
Proof.
  revert b; induction a as [| x a IH]; intros [| y b]; simpl;
    try (split; [discriminate | discriminate]); [tauto |].
  rewrite andb_true_iff, eqc_eq, IH. split.
  - intros [-> ->]. reflexivity.
  - intros H. injection H as -> ->. auto.
Qed.

Lemma eqv_eq (a b : jsv) : eqv a b = true <-> a = b.
Proof.
  destruct a as [x |], b as [y |]; simpl;
    try (split; [discriminate | discriminate]); [| tauto].
  rewrite eqs_eq. split; [intros -> | intros H; injection H as ->]; reflexivity.
Qed.

(** [[...new Set(xs)]] has no element twice. *)
Lemma uniq_by_NoDup {A} (eq : A -> A -> bool) :
  (forall a b, eq a b = true <-> a = b) ->
  forall xs seen,
    NoDup (uniq_by eq seen xs)
    /\ (forall x, In x (uniq_by eq seen xs) -> ~ In x seen).
Proof.
  intros Heq. induction xs as [| x xs IH]; intros seen; cbn [uniq_by].
  - split; [constructor | intros x []].
  - destruct (existsb (eq x) seen) eqn:E.
    + apply IH.
    + destruct (IH (x :: seen)) as [Hnd Hfresh]. split.
      * constructor; [| exact Hnd].
        intros Hin. apply (Hfresh x Hin). left. reflexivity.
      * intros y [<- | Hin] Hseen.
        -- assert (existsb (eq x) seen = true); [| congruence].
           apply existsb_exists. exists x. split; [exact Hseen |].
           apply Heq. reflexivity.
        -- apply (Hfresh y Hin). right. exact Hseen.
Qed.

(** It keeps every element. *)
Lemma uniq_by_complete {A} (eq : A -> A -> bool) :
  (forall a b, eq a b = true <-> a = b) ->
  forall xs seen x,
    In x xs -> In x seen \/ In x (uniq_by eq seen xs).
Proof.
  intros Heq. induction xs as [| y xs IH]; intros seen x Hin; cbn [uniq_by].
  - contradiction.
  - destruct (existsb (eq y) seen) eqn:E.
    + destruct Hin as [<- | Hin]; [| apply IH; exact Hin].
      left. apply existsb_exists in E as (z & Hz & Hyz).
      apply Heq in Hyz. subst z. exact Hz.
    + destruct Hin as [<- | Hin]; [right; left; reflexivity |].
      destruct (IH (y :: seen) x Hin) as [[<- | Hseen] | Hrest].
      * right. left. reflexivity.
      * left. exact Hseen.
      * right. right. exact Hrest.
Qed.

Lemma captures_truthy i r s :
  recordsText i r = true ->
  Forall (fun v => truthy v = true) (captures i (matchAll r s)).
Proof.
  intros Hrec. unfold captures. apply Forall_forall. intros v Hv.
  apply in_map_iff in Hv as (m & <- & Hm).
  apply matchAll_matches in Hm as [t Hm].
  exact (matches_recordsText i r _ _ Hm Hrec).
Qed.

Lemma orElse_truthy a b :
  truthy a = true \/ truthy b = true -> truthy (orElse a b) = true.
Proof.
  unfold orElse. destruct (truthy a) eqn:E; [auto |].
  intros [H | H]; [discriminate | exact H].
Qed.

(** X2.  The dependency list has no entry twice, and every entry is a
    string that is not empty: none is [undefined]. *)
Theorem extractDependencies_distinct_nonempty (content : jsstring) :
  NoDup (extractDependencies content)
  /\ Forall (fun dep => truthy dep = true) (extractDependencies content).
Proof.
  unfold extractDependencies. split.
  - apply (uniq_by_NoDup eqv eqv_eq).
  - apply Forall_forall. intros v Hv.
    apply uniq_by_In in Hv. revert v Hv. apply Forall_forall.
    apply Forall_app. split; [| apply Forall_app; split].
    + apply captures_truthy. reflexivity.
    + apply Forall_forall. intros v Hv.
      apply in_map_iff in Hv as (m & <- & Hm).
      apply matchAll_matches in Hm as [t Hm].
      apply orElse_truthy.
      unfold Patterns.pythonImport in Hm. cbn [matches] in Hm.
      destruct Hm as [Hm | Hm].
      * left. exact (matches_recordsText 1 _ _ _ Hm eq_refl).
      * right. exact (matches_recordsText 2 _ _ _ Hm eq_refl).
    + apply captures_truthy. reflexivity.
Qed.

(** X3.  Every function, class and export name the analyzer reports is a
    string that is not empty; so the main function (class) is set exactly
    when the list of functions (classes) is not empty. *)
Theorem extracted_names_nonempty (content : jsstring) :
  Forall (fun name => truthy name = true) (extractFunctions content)
  /\ Forall (fun name => truthy name = true) (extractClasses content)
  /\ Forall (fun name => truthy name = true) (extractExports content)
  /\ (forall fileType analysis,
        analyzeContent content fileType = Ok analysis ->
        truthy (Analysis.mainFunction analysis)
          = Nat.ltb 0 (length (Analysis.functions analysis))
        /\ truthy (Analysis.mainClass analysis)
           = Nat.ltb 0 (length (Analysis.classes analysis))).
Proof.
  assert (Hf : Forall (fun name => truthy name = true)
                 (extractFunctions content)).
  { unfold extractFunctions. apply Forall_app. split.
    + apply Forall_forall. intros v Hv. apply filter_In in Hv. tauto.
    + apply captures_truthy. reflexivity. }
  assert (Hc : Forall (fun name => truthy name = true)
                 (extractClasses content)).
  { unfold extractClasses. apply Forall_app.
    split; apply captures_truthy; reflexivity. }
  split; [exact Hf |]. split; [exact Hc |]. split.
  { unfold extractExports. apply captures_truthy. reflexivity. }
  intros fileType analysis H. unfold analyzeContent in H.
  apply bind_ok in H as (framework & _ & H).
  apply bind_ok in H as (summary & _ & H).
  injection H as <-. cbn [Analysis.mainFunction Analysis.mainClass
                             Analysis.functions Analysis.classes].
  split.
  - destruct Hf as [| f fs Hhead _]; [reflexivity | exact Hhead].
  - destruct Hc as [| c cs Hhead _]; [reflexivity | exact Hhead].
Qed.

(** ** The chunker, continued *)

Lemma ink_app (a b : jsstring) : ink (a ++ b) = ink a ++ ink b.
Proof. apply filter_app. Qed.

Lemma ink_dropWhile (s : jsstring) : ink (dropWhile is_space s) = ink s.
Proof.
  induction s as [| x s IH]; simpl; [reflexivity |].
  destruct (is_space x) eqn:E; simpl; [exact IH |].
  rewrite E. reflexivity.
Qed.

Lemma ink_trim (s : jsstring) : ink (trim s) = ink s.
Proof.
  unfold trim, trimEnd, trimStart, ink.
  rewrite filter_rev. fold (ink (dropWhile is_space (rev (dropWhile is_space s)))).
  rewrite ink_dropWhile. unfold ink. rewrite filter_rev, rev_involutive.
  apply ink_dropWhile.
Qed.

Lemma ink_nil (s : jsstring) : ink s = [] <-> forallb is_space s = true.
Proof.
  induction s as [| x s IH]; simpl; [tauto |].
  destruct (is_space x); simpl; [exact IH | split; discriminate].
Qed.

Lemma split_lines_not_nil (s : jsstring) : split_lines s <> [].
Proof.
  destruct s as [| x s]; simpl; [discriminate |].
  destruct (eqc x 10%N); [discriminate |].
  destruct (split_lines s); discriminate.
Qed.

(** Joining the lines with newlines gives the text back. *)
Lemma join_split_lines (s : jsstring) : join nl (split_lines s) = s.
Proof.
  induction s as [| x s IH]; [reflexivity |]. cbn [split_lines].
  pose proof (split_lines_not_nil s) as Hne.
  destruct (eqc x 10%N) eqn:E.
  - apply eqc_eq in E. subst x.
    destruct (split_lines s) as [| l ls]; [contradiction |].
    change (join nl ([] :: l :: ls)) with ([] ++ nl ++ join nl (l :: ls)).
    rewrite IH. reflexivity.
  - destruct (split_lines s) as [| l ls]; [contradiction |].
    destruct ls as [| l' ls].
    + simpl in *. rewrite IH. reflexivity.
    + change (join nl ((x :: l) :: l' :: ls))
        with (x :: (l ++ nl ++ join nl (l' :: ls))).
      change (join nl (l :: l' :: ls))
        with (l ++ nl ++ join nl (l' :: ls)) in IH.
      rewrite IH. reflexivity.
Qed.

Lemma ink_concat_split_lines (s : jsstring) :
  ink (concat (split_lines s)) = ink s.
Proof.
  rewrite <- (join_split_lines s) at 2.
  generalize (split_lines s) as lines.
  induction lines as [| l ls IH]; [reflexivity |].
  destruct ls as [| l' ls].
  - simpl. rewrite app_nil_r. reflexivity.
  - change (join nl (l :: l' :: ls))
      with (l ++ nl ++ join nl (l' :: ls)).
    change (concat (l :: l' :: ls)) with (l ++ concat (l' :: ls)).
    rewrite !ink_app, IH. reflexivity.
Qed.

(** The loop neither loses nor reorders text that is not white space. *)
Lemma accumulate_ink (lines chunks : list jsstring) (current : jsstring) :
  ink (concat (fst (accumulate lines chunks current))
       ++ snd (accumulate lines chunks current))
  = ink (concat chunks ++ current ++ concat lines).
Proof.
  revert chunks current; induction lines as [| line lines IH]; intros;
    cbn [accumulate concat].
  - rewrite app_nil_r. reflexivity.
  - destruct (_ && _); rewrite IH.
    + rewrite concat_app. cbn [concat]. rewrite app_nil_r.
      rewrite !ink_app, ink_trim. rewrite <- !app_assoc. reflexivity.
    + assert (Hsep : ink (current
                          ++ (match current with [] => [] | _ => nl end)
                          ++ line)
                     = ink current ++ ink line).
      { destruct current; [reflexivity |]. rewrite !ink_app. reflexivity. }
      rewrite ink_app, (ink_app _ (concat lines)), Hsep.
      rewrite !ink_app, <- !app_assoc. reflexivity.
Qed.

Lemma lineChunks_ink (content : jsstring) :
  ink (concat (lineChunks content)) = ink content.
Proof.
  unfold lineChunks.
  pose proof (accumulate_ink (split_lines content) [] []) as H.
  destruct (accumulate (split_lines content) [] []) as [chunks current].
  cbn [fst snd concat app] in H. rewrite ink_concat_split_lines in H.
  rewrite <- H, ink_app.
  destruct (trim current) as [| x t] eqn:E.
  - apply trim_nil, ink_nil in E. rewrite E, app_nil_r. reflexivity.
  - rewrite concat_app, ink_app. cbn [concat]. rewrite app_nil_r.
    rewrite <- E, ink_trim. reflexivity.
Qed.

(** X4.  Chunking neither loses nor reorders text: the chunks put end to
    end hold, white space aside, exactly the characters of the content in
    their order. *)
Theorem splitContent_keeps_text (content : jsstring) :
  ink (concat (splitContent content)) = ink content.
Proof.
  unfold splitContent.
  destruct (lineChunks content) as [| c cs] eqn:E.
  - cbn [concat]. rewrite app_nil_r. reflexivity.
  - rewrite <- E. apply lineChunks_ink.
Qed.

Lemma lineChunks_nil_blank (content : jsstring) :
  lineChunks content = [] -> forallb is_space content = true.
Proof.
  intros H. apply ink_nil. rewrite <- lineChunks_ink, H. reflexivity.
Qed.

Lemma dropWhile_idempotent p (s : jsstring) :
  dropWhile p (dropWhile p s) = dropWhile p s.
Proof.
  induction s as [| x s IH]; simpl; [reflexivity |].
  destruct (p x) eqn:E; [exact IH |]. simpl. rewrite E. reflexivity.
Qed.

Lemma dropWhile_suffix p (s : jsstring) :
  exists w, s = w ++ dropWhile p s.
Proof.
  induction s as [| x s [w IH]]; simpl.
  - exists []. reflexivity.
  - destruct (p x).
    + exists (x :: w). simpl. f_equal. exact IH.
    + exists []. reflexivity.
Qed.

Lemma dropWhile_head p (s : jsstring) x t :
  dropWhile p s = x :: t -> p x = false.
Proof.
  induction s as [| y s IH]; simpl; [discriminate |].
  destruct (p y) eqn:E; [exact IH |].
  intros H. injection H as <- _. exact E.
Qed.

Lemma trim_idempotent (s : jsstring) : trim (trim s) = trim s.
Proof.
  unfold trim. set (t := trimStart s).
  assert (Hend : trimEnd (trimEnd t) = trimEnd t).
  { unfold trimEnd. rewrite rev_involutive, dropWhile_idempotent.
    reflexivity. }
  assert (Hstart : trimStart (trimEnd t) = trimEnd t).
  { unfold trimEnd.
    destruct (dropWhile_suffix is_space (rev t)) as [w Hw].
    assert (Ht : t = rev (dropWhile is_space (rev t)) ++ rev w).
    { rewrite <- rev_app_distr, <- Hw, rev_involutive. reflexivity. }
    destruct (rev (dropWhile is_space (rev t))) as [| x u] eqn:E;
      [reflexivity |].
    unfold trimStart. cbn [dropWhile].
    assert (Hx : is_space x = false).
    { unfold t, trimStart in Ht. cbn [app] in Ht.
      exact (dropWhile_head is_space s x _ Ht). }
    rewrite Hx. reflexivity. }
  rewrite Hstart. exact Hend.
Qed.

Lemma accumulate_trimmed (lines chunks : list jsstring) (current : jsstring) :
  Forall (fun c => trim c = c) chunks ->
  Forall (fun c => trim c = c) (fst (accumulate lines chunks current)).
Proof.
  revert chunks current; induction lines as [| line lines IH];
    intros chunks current H; cbn [accumulate].
  - exact H.
  - destruct (_ && _); apply IH; [| exact H].
    apply Forall_app. split; [exact H |].
    constructor; [apply trim_idempotent | constructor].
Qed.

Lemma lineChunks_trimmed (content : jsstring) :
  Forall (fun c => trim c = c) (lineChunks content).
Proof.
  unfold lineChunks.
  pose proof (accumulate_trimmed (split_lines content) [] []
                (Forall_nil _)) as H.
  destruct (accumulate (split_lines content) [] []) as [chunks current].
  cbn [fst] in H.
  destruct (trim current) as [| x t] eqn:E; [exact H |].
  apply Forall_app. split; [exact H |]. rewrite <- E.
  constructor; [apply trim_idempotent | constructor].
Qed.

Lemma splitContent_lineChunks (content : jsstring) :
  forallb is_space content = false ->
  splitContent content = lineChunks content.
Proof.
  intros Hink. unfold splitContent.
  destruct (lineChunks content) as [| c cs] eqn:E; [| reflexivity].
  apply lineChunks_nil_blank in E. congruence.
Qed.

(** X5.  When the content is not blank, every chunk starts and ends with a
    character that is not white space: trimming a chunk changes nothing. *)
Theorem splitContent_chunks_trimmed (content : jsstring) :
  forallb is_space content = false ->
  Forall (fun chunk => trim chunk = chunk) (splitContent content).
Proof.
  intros H. rewrite (splitContent_lineChunks content H).
  apply lineChunks_trimmed.
Qed.

Lemma splitContent_chunks_trimmed_witness :
  Forall (fun chunk => trim chunk = chunk)
    (splitContent (js "  a" ++ nl ++ nl ++ js "b  " ++ nl)).
Proof.
  apply (splitContent_chunks_trimmed (js "  a" ++ nl ++ nl ++ js "b  " ++ nl)).
  reflexivity.
Defined.

Lemma length_dropWhile_le p (s : jsstring) :
  length (dropWhile p s) <= length s.
Proof.
  induction s as [| x s IH]; simpl; [lia |].
  destruct (p x); simpl; lia.
Qed.

Lemma length_trim_le (s : jsstring) : length (trim s) <= length s.
Proof.
  unfold trim, trimEnd, trimStart. rewrite length_rev.
  pose proof (length_dropWhile_le is_space
                (rev (dropWhile is_space s))) as H1.
  rewrite length_rev in H1.
  pose proof (length_dropWhile_le is_space s). lia.
Qed.

Lemma accumulate_bounded (lines chunks : list jsstring) (current : jsstring) :
  Forall (fun l => length l <= maxChunkSize) lines ->
  Forall (fun c => length c <= S maxChunkSize) chunks ->
  length current <= S maxChunkSize ->
  Forall (fun c => length c <= S maxChunkSize)
         (fst (accumulate lines chunks current))
  /\ length (snd (accumulate lines chunks current)) <= S maxChunkSize.
Proof.
  intros Hlines; revert chunks current.
  induction Hlines as [| line lines Hline _ IH]; intros chunks current Hc Hcur;
    cbn [accumulate].
  - auto.
  - destruct (Nat.ltb maxChunkSize (length current + length line)) eqn:E1;
      destruct (Nat.ltb 0 (length current)) eqn:E2; cbn [andb].
    + apply IH; [| lia].
      apply Forall_app. split; [exact Hc |].
      constructor; [| constructor].
      pose proof (length_trim_le current). lia.
    + apply IH; [exact Hc |].
      apply Nat.ltb_ge in E2.
      destruct current; [simpl; lia | simpl in E2; lia].
    + apply IH; [exact Hc |]. apply Nat.ltb_ge in E1.
      rewrite !length_app. destruct current; simpl in *; lia.
    + apply IH; [exact Hc |].
      apply Nat.ltb_ge in E2.
      destruct current; [simpl; lia | simpl in E2; lia].
Qed.

(** X6.  The limit is overshot by at most the separator: when no line
    exceeds [maxChunkSize] and the content is not blank, no chunk is longer
    than [maxChunkSize + 1]. *)
Theorem splitContent_chunk_size (content : jsstring) :
  Forall (fun l => length l <= maxChunkSize) (split_lines content) ->
  forallb is_space content = false ->
  Forall (fun chunk => length chunk <= S maxChunkSize) (splitContent content).
Proof.
  intros Hlines Hink. rewrite (splitContent_lineChunks content Hink).
  unfold lineChunks.
  destruct (accumulate_bounded (split_lines content) [] [] Hlines
              (Forall_nil _) (Nat.le_0_l _)) as [Hchunks Hcur].
  destruct (accumulate (split_lines content) [] []) as [chunks current].
  cbn [fst snd] in *.
  destruct (trim current) as [| x t] eqn:E; [exact Hchunks |].
  apply Forall_app. split; [exact Hchunks |].
  constructor; [| constructor]. rewrite <- E.
  pose proof (length_trim_le current). lia.
Qed.

Lemma splitContent_chunk_size_witness :
  Forall (fun chunk => length chunk <= S maxChunkSize)
    (splitContent (repeat (chr "a") 600 ++ nl ++ repeat (chr "b") 400)).
Proof.
  apply (splitContent_chunk_size
           (repeat (chr "a") 600 ++ nl ++ repeat (chr "b") 400)).
  - apply Forall_length_le. vm_compute. reflexivity.
  - vm_compute. reflexivity.
Defined.

Lemma join_cons (l : jsstring) (more : list jsstring) :
  join nl (l :: more) = l ++ concat (List.map (fun m => nl ++ m) more).
Proof.
  revert l; induction more as [| m more IH]; intros l.
  - simpl. rewrite app_nil_r. reflexivity.
  - change (join nl (l :: m :: more)) with (l ++ nl ++ join nl (m :: more)).
    rewrite IH. cbn [List.map concat]. rewrite <- !app_assoc. reflexivity.
Qed.

Lemma span_cons (l : jsstring) (lines : list jsstring) :
  span (l :: lines) = S (length l) + span lines.
Proof. reflexivity. Qed.

Lemma span_split_lines (s : jsstring) : span (split_lines s) = S (length s).
Proof.
  induction s as [| x s IH]; [reflexivity |]. cbn [split_lines].
  pose proof (split_lines_not_nil s) as Hne.
  destruct (eqc x 10%N).
  - rewrite span_cons, IH. simpl. reflexivity.
  - destruct (split_lines s) as [| l ls]; [contradiction |].
    rewrite span_cons in *. cbn [length] in *. lia.
Qed.

(** With a current chunk that is not empty and room for all the lines, the
    loop appends every line after a separator. *)
Lemma accumulate_room (lines chunks : list jsstring) (current : jsstring) :
  current <> [] ->
  length current + span lines <= S maxChunkSize ->
  accumulate lines chunks current
  = (chunks, current ++ concat (List.map (fun l => nl ++ l) lines)).
Proof.
  revert chunks current; induction lines as [| line lines IH];
    intros chunks current Hne Hroom; cbn [accumulate List.map concat].
  - rewrite app_nil_r. reflexivity.
  - rewrite span_cons in Hroom.
    replace (Nat.ltb maxChunkSize (length current + length line)) with false
      by (symmetry; apply Nat.ltb_ge; lia).
    cbn [andb]. destruct current as [| y current]; [congruence |].
    rewrite IH.
    + rewrite <- !app_assoc. reflexivity.
    + discriminate.
    + rewrite !length_app. cbn [length nl] in *. lia.
Qed.

(** From the empty chunk the loop first drops the empty lines. *)
Lemma accumulate_room_start (lines chunks : list jsstring) :
  span lines <= S maxChunkSize ->
  fst (accumulate lines chunks []) = chunks
  /\ exists k,
       join nl lines = repeat 10%N k ++ snd (accumulate lines chunks []).
Proof.
  revert chunks; induction lines as [| line lines IH]; intros chunks Hroom;
    cbn [accumulate].
  - split; [reflexivity |]. exists 0. reflexivity.
  - cbn [length Nat.ltb Nat.leb andb app].
    rewrite andb_false_r.
    rewrite span_cons in Hroom.
    destruct line as [| y line].
    + cbn [app]. destruct (IH chunks) as [Hfst [k Hk]]; [lia |].
      split; [exact Hfst |].
      destruct lines as [| l ls].
      * exists 0. reflexivity.
      * exists (S k).
        change (join nl ([] :: l :: ls)) with (nl ++ join nl (l :: ls)).
        rewrite Hk. reflexivity.
    + cbn [app]. rewrite accumulate_room.
      * split; [reflexivity |]. exists 0. cbn [fst snd repeat app].
        apply join_cons.
      * discriminate.
      * cbn [length] in *. lia.
Qed.

Lemma trim_blank_prefix (ws s : jsstring) :
  forallb is_space ws = true -> trim (ws ++ s) = trim s.
Proof.
  intros H. unfold trim, trimStart. rewrite dropWhile_app, H. reflexivity.
Qed.

(** X7.  A content of at most [maxChunkSize] characters is never split: it
    gives one chunk, the trimmed content, or the content itself when it is
    blank. *)
Theorem splitContent_short (content : jsstring) :
  length content <= maxChunkSize ->
  splitContent content
  = [if forallb is_space content then content else trim content].
Proof.
  intros Hshort. unfold splitContent, lineChunks.
  destruct (accumulate_room_start (split_lines content) [])
    as [Hfst [k Hk]].
  { rewrite span_split_lines. lia. }
  rewrite join_split_lines in Hk.
  destruct (accumulate (split_lines content) [] []) as [chunks current].
  cbn [fst snd] in *. subst chunks.
  assert (Htrim : trim current = trim content).
  { rewrite Hk. symmetry. apply trim_blank_prefix.
    clear. induction k; [reflexivity | exact IHk]. }
  rewrite Htrim.
  destruct (forallb is_space content) eqn:Hblank.
  - apply trim_nil in Hblank. rewrite Hblank. reflexivity.
  - destruct (trim content) as [| x t] eqn:E; [| reflexivity].
    apply trim_nil in E. congruence.
Qed.

Lemma splitContent_short_witness :
  splitContent (nl ++ js "  const a = 1;" ++ nl ++ js "b();" ++ nl)
  = [js "const a = 1;" ++ nl ++ js "b();"].
Proof.
  apply (splitContent_short
           (nl ++ js "  const a = 1;" ++ nl ++ js "b();" ++ nl)).
  apply Nat.leb_le. vm_compute. reflexivity.
Defined.

(** ** Storing the chunks *)

Lemma js_cons (a : ascii) (s : string) : js (String a s) = chr a :: js s.
Proof. reflexivity. Qed.

Lemma js_inj (s t : string) : js s = js t -> s = t.
Proof.
  revert t; induction s as [| a s IH]; intros [| b t] H;
    try discriminate; [reflexivity |].
  rewrite !js_cons in H. injection H as Hab Hst.
  f_equal; [| apply IH; exact Hst].
  unfold chr in Hab.
  rewrite <- (ascii_N_embedding a), <- (ascii_N_embedding b), Hab.
  reflexivity.
Qed.

Lemma string_of_uint_digits (d : Decimal.uint) :
  Forall (fun c => is_digit c = true) (js (NilEmpty.string_of_uint d)).
Proof.
  induction d; cbn [NilEmpty.string_of_uint]; try rewrite js_cons;
    constructor; try reflexivity; assumption.
Qed.

Lemma ofNumber_digits (n : N) :
  Forall (fun c => is_digit c = true) (ofNumber n).
Proof. apply string_of_uint_digits. Qed.

Lemma ofNumber_inj (n m : N) : ofNumber n = ofNumber m -> n = m.
Proof.
  unfold ofNumber. intros H. apply js_inj in H.
  apply DecimalN.Unsigned.to_uint_inj.
  assert (Hu : forall d, NilEmpty.uint_of_string (NilEmpty.string_of_uint d)
                         = Some d) by apply NilEmpty.usu.
  pose proof (Hu (N.to_uint n)) as Hn. rewrite H, Hu in Hn.
  injection Hn as Hn. symmetry. exact Hn.
Qed.

(** Two texts cut at the first occurrence of a character agree part by
    part. *)
Lemma cut_at_first (u : char) : forall a b x y : jsstring,
  ~ In u a -> ~ In u b -> a ++ u :: x = b ++ u :: y -> a = b /\ x = y.
Proof.
  induction a as [| c a IH]; intros [| d b] x y Ha Hb H; cbn [app] in H.
  - injection H as ->. auto.
  - injection H as <- _. exfalso. apply Hb. left. reflexivity.
  - injection H as -> _. exfalso. apply Ha. left. reflexivity.
  - injection H as -> H.
    destruct (IH b x y) as [-> ->]; auto.
    + intros Hin. apply Ha. right. exact Hin.
    + intros Hin. apply Hb. right. exact Hin.
Qed.

Lemma digits_no_underscore (n : N) : ~ In 95%N (rev (ofNumber n)).
Proof.
  intros Hin. apply in_rev in Hin.
  pose proof (proj1 (Forall_forall _ _) (ofNumber_digits n) _ Hin) as H.
  vm_compute in H. discriminate.
Qed.

(** X8.  Chunk ids are unambiguous: two chunk ids are equal only for the
    same item id and the same index, whatever the item ids are. *)
Theorem chunkId_injective (id1 id2 : jsstring) (i j : nat) :
  chunkId id1 i = chunkId id2 j <-> id1 = id2 /\ i = j.
Proof.
  split; [| intros [-> ->]; reflexivity].
  unfold chunkId. intros H.
  apply (f_equal (@rev char)) in H.
  rewrite !rev_app_distr, <- !app_assoc in H.
  change (rev (js "_chunk_")) with (95%N :: js "knuhc_") in H.
  cbn [app] in H.
  apply cut_at_first in H as [Hd Hid];
    [| apply digits_no_underscore | apply digits_no_underscore].
  apply app_inv_head in Hid.
  split.
  - rewrite <- (rev_involutive id1), <- (rev_involutive id2), Hid.
    reflexivity.
  - apply Nat2N.inj, ofNumber_inj.
    rewrite <- (rev_involutive (ofNumber _)), Hd, rev_involutive.
    reflexivity.
Qed.

Lemma NoDup_map_injective {A B} (f : A -> B) (l : list A) :
  (forall x y, f x = f y -> x = y) -> NoDup l -> NoDup (List.map f l).
Proof.
  intros Hinj. induction 1 as [| x l Hx _ IH]; cbn [List.map];
    constructor; [| exact IH].
  intros Hin. apply in_map_iff in Hin as (y & Hy & Hin).
  apply Hinj in Hy. subst y. contradiction.
Qed.

Lemma generateEmbeddingsFrom_length {Embedding : Type}
    (embed : nat -> jsstring -> Embedding) (texts : list jsstring) :
  forall n, length (generateEmbeddingsFrom embed n texts) = length texts.
Proof.
  induction texts as [| text more IH]; intros n; simpl; [reflexivity |].
  rewrite IH. reflexivity.
Qed.

(** X9.  [addKnowledge] stores every chunk once: it makes one [add] call
    per chunk and at least one, the documents are the chunks in order, each
    comes with an embedding, no two calls use the same id, and each call
    records the id of the item, its own index and the number of chunks. *)
Theorem addKnowledge_calls (Date Embedding : Type)
    (embed : nat -> jsstring -> Embedding) (item : KnowledgeItem.t Date) :
  let calls := addKnowledge embed item in
  let chunks := splitContent (KnowledgeItem.content item) in
  calls <> []
  /\ List.map (@AddRequest.documents _ _) calls = List.map Some chunks
  /\ Forall (fun call => AddRequest.embeddings call <> None) calls
  /\ NoDup (List.map (@AddRequest.ids _ _) calls)
  /\ (forall i call, nth_error calls i = Some call ->
        ChunkMetadata.chunkIndex (AddRequest.metadatas call) = i
        /\ ChunkMetadata.totalChunks (AddRequest.metadatas call)
           = length calls
        /\ ChunkMetadata.originalId (AddRequest.metadatas call)
           = KnowledgeItem.id item).
Proof.
  cbv zeta. unfold addKnowledge.
  set (chunks := splitContent (KnowledgeItem.content item)).
  set (embeddings := generateEmbeddings embed chunks).
  assert (Hne : chunks <> []).
  { unfold chunks, splitContent.
    destruct (lineChunks (KnowledgeItem.content item)); discriminate. }
  assert (Hemb : length embeddings = length chunks)
    by apply generateEmbeddingsFrom_length.
  split; [| split; [| split; [| split]]].
  - destruct chunks; [congruence | discriminate].
  - rewrite map_map. cbn [AddRequest.documents].
    clear. induction chunks as [| c cs IH] using rev_ind; [reflexivity |].
    rewrite length_app, Nat.add_comm. cbn [length Nat.add].
    rewrite seq_S, !map_app. cbn [List.map Nat.add]. f_equal.
    + rewrite <- IH. apply map_ext_in. intros i Hi. apply in_seq in Hi.
      apply nth_error_app1. lia.
    + rewrite nth_error_app2, Nat.sub_diag by lia. reflexivity.
  - apply Forall_forall. intros call Hcall.
    apply in_map_iff in Hcall as (i & <- & Hi). apply in_seq in Hi.
    cbn [AddRequest.embeddings]. apply nth_error_Some. lia.
  - rewrite map_map. cbn [AddRequest.ids].
    apply NoDup_map_injective; [| apply seq_NoDup].
    intros i j H. apply Nat2N.inj, ofNumber_inj.
    unfold chunkId in H. apply app_inv_head in H.
    apply app_inv_head in H. exact H.
  - intros i call Hnth.
    rewrite nth_error_map in Hnth.
    destruct (nth_error (seq 0 (length chunks)) i) as [k |] eqn:Hk;
      [| discriminate].
    injection Hnth as <-. cbn.
    rewrite length_map, length_seq.
    assert (Hi : i < length (seq 0 (length chunks)))
      by (apply nth_error_Some; congruence).
    rewrite length_seq in Hi.
    rewrite (nth_error_nth' _ 0) in Hk by (rewrite length_seq; exact Hi).
    rewrite seq_nth in Hk by exact Hi. injection Hk as <-. auto.
Qed.

(** ** Choosing the model *)

Lemma tryModels_none {Model : Type} (provider : Provider Model) :
  forall models current,
    tryModels provider models current = None
    <-> current = None
        /\ forall name, In name models ->
                        getGenerativeModel provider name = None.
Proof.
  induction models as [| name more IH]; intros current; cbn [tryModels].
  - split; [intros ->; split; [reflexivity | intros ? []] | tauto].
  - destruct (getGenerativeModel provider name) as [model |] eqn:E.
    + destruct (generateContent provider model).
      * split; [discriminate |]. intros [_ H].
        specialize (H name (or_introl eq_refl)). congruence.
      * rewrite IH. split; [intros [H _]; discriminate |].
        intros [_ H]. specialize (H name (or_introl eq_refl)). congruence.
    + rewrite IH. split; intros [Hc H]; (split; [exact Hc |]).
      * intros n [<- | Hn]; auto.
      * intros n Hn. apply H. right. exact Hn.
Qed.

Lemma tryModels_all_rejected {Model : Type} (provider : Provider Model) :
  (forall model, generateContent provider model = false) ->
  forall models name model current,
    getGenerativeModel provider name = Some model ->
    tryModels provider (models ++ [name]) current = Some model.
Proof.
  intros Hrej. induction models as [| n more IH];
    intros name model current Hget; cbn [app tryModels].
  - rewrite Hget, Hrej. reflexivity.
  - destruct (getGenerativeModel provider n) as [m |]; [rewrite Hrej |];
      apply IH; exact Hget.
Qed.

(** X10.  [initializeModel] reports that no model is available only when
    [getGenerativeModel] itself fails for every name: a model whose test
    request is rejected stays selected, so when every test request is
    rejected the engine ends up using the last model of the list. *)
Theorem initializeModel_availability (Model : Type)
    (provider : Provider Model) :
  (initializeModel provider = NoModelAvailable
   <-> forall name, In name modelNames ->
                    getGenerativeModel provider name = None)
  /\ (forall model,
        (forall m, generateContent provider m = false) ->
        getGenerativeModel provider (js "gemini-1.0-pro") = Some model ->
        initializeModel provider = Using model).
Proof.
  unfold initializeModel. split.
  - pose proof (tryModels_none provider modelNames None) as H.
    destruct (tryModels provider modelNames None) as [model |].
    + split; [discriminate |]. intros Hall.
      assert (Hn : Some model = None) by (apply H; auto). discriminate.
    + split; [intros _ | reflexivity]. apply H. reflexivity.
  - intros model Hrej Hget.
    change modelNames
      with (List.map js ["gemini-1.5-flash"; "gemini-1.5-pro"]%string
            ++ [js "gemini-1.0-pro"]).
    rewrite (tryModels_all_rejected provider Hrej _ _ model None Hget).
    reflexivity.
Qed.

(** ** The watchers *)

Lemma startsWith_includes (s p : jsstring) :
  startsWith s p = true -> includes s p = true.
Proof.
  intros H. destruct s; simpl; rewrite H; reflexivity.
Qed.

(** X11.  The local scanner excludes whatever the GitHub rule excludes with
    the same exclude paths: where the GitHub rule tests a prefix, the local
    one tests a substring, and the local one adds its default directories. *)
Theorem github_exclusion_implies_local (filePath : jsstring)
    (excludePaths : option (list jsstring)) :
  GitHubWatcher.shouldExcludeFile filePath excludePaths = true ->
  LocalFileWatcher.shouldExcludePath filePath excludePaths = true.
Proof.
  unfold GitHubWatcher.shouldExcludeFile, LocalFileWatcher.shouldExcludePath.
  destruct excludePaths as [paths |]; [| discriminate].
  intros H. rewrite existsb_app. apply orb_true_iff. right.
  apply existsb_exists in H as (x & Hx & Htest).
  apply existsb_exists. exists x. split; [exact Hx |].
  destruct (endsWith x (js "/**")); [| exact Htest].
  apply startsWith_includes. exact Htest.
Qed.

Lemma github_exclusion_implies_local_witness :
  LocalFileWatcher.shouldExcludePath (js "docs/api/index.md")
    (Some [js "docs/**"]) = true.
Proof.
  apply (github_exclusion_implies_local (js "docs/api/index.md")
           (Some [js "docs/**"])).
  vm_compute. reflexivity.
Defined.

(** X12.  For a GitHub push, the removal of a file asks the engine to
    remove exactly the id under which its addition or modification stores
    the item, and a modification carries the item an addition would. *)
Theorem processFileChange_ids_agree (Date : Type) (host : Host)
    (repos : list GitHubWatcher.RepoConfig) (act : action)
    (repoFullName filePath : jsstring) (fetched : jsv) (now : Date)
    (item : KnowledgeItem.t Date) :
  GitHubWatcher.processFileChange host repos act repoFullName filePath
    fetched now
  = Ok (match act with
        | modified => UpdateKnowledge item
        | _ => AddKnowledge item
        end) ->
  act <> removed ->
  (forall (fetched' : jsv) (now' : Date),
     GitHubWatcher.processFileChange host repos removed repoFullName filePath
       fetched' now'
     = Ok (RemoveKnowledge (KnowledgeItem.id item)))
  /\ GitHubWatcher.processFileChange host repos added repoFullName filePath
       fetched now = Ok (AddKnowledge item)
  /\ GitHubWatcher.processFileChange host repos modified repoFullName
       filePath fetched now = Ok (UpdateKnowledge item).
Proof.
  unfold GitHubWatcher.processFileChange. intros H Hact.
  destruct (find _ repos) as [repoConfig |]; [| destruct act; discriminate].
  destruct (GitHubWatcher.shouldExcludeFile _ _);
    [destruct act; discriminate |].
  destruct (shouldProcessFile defaultConfig filePath) as [eligible | e];
    [| destruct act; discriminate].
  cbn [bind] in *. destruct eligible; cbn [negb] in *;
    [| destruct act; discriminate].
  assert (Hitem : truthy fetched = true
                  /\ extractKnowledge host
                       {| FileInfo.repository := repoFullName;
                          FileInfo.filePath := filePath;
                          FileInfo.content := toStr fetched;
                          FileInfo.lastModified := now |}
                     = Ok (Some item)).
  { destruct act; [| | congruence];
      (destruct (truthy fetched); [| discriminate];
       destruct (extractKnowledge host _) as [[k |] | e];
       try discriminate H; injection H as ->;
       split; reflexivity). }
  destruct Hitem as [Htruthy Hextract].
  rewrite Htruthy, Hextract. split; [| split; reflexivity].
  intros _ _. f_equal. f_equal.
  unfold extractKnowledge in Hextract.
  apply bind_ok in Hextract as (eligible & _ & Hextract).
  destruct eligible; cbn [negb] in Hextract; [| discriminate].
  apply bind_ok in Hextract as (analysis & _ & Hextract).
  apply bind_ok in Hextract as (tags & _ & Hextract).
  injection Hextract as <-. reflexivity.
Qed.

Lemma processFileChange_ids_agree_witness :
  exists item : KnowledgeItem.t N,
    GitHubWatcher.processFileChange Example.host Example.githubRepos added
      (js "acme/app") (js "src/a.js") (Some (js "x = 1;")) 0%N
    = Ok (AddKnowledge item)
    /\ GitHubWatcher.processFileChange Example.host Example.githubRepos
         removed (js "acme/app") (js "src/a.js") None 7%N
       = Ok (RemoveKnowledge (KnowledgeItem.id item)).
Proof.
  eexists.
  assert (E : GitHubWatcher.processFileChange Example.host
                Example.githubRepos added (js "acme/app") (js "src/a.js")
                (Some (js "x = 1;")) 0%N = Ok (AddKnowledge _))
    by (vm_compute; reflexivity).
  split; [exact E |].
  apply (processFileChange_ids_agree N Example.host Example.githubRepos added
           (js "acme/app") (js "src/a.js") (Some (js "x = 1;")) 0%N _ E).
  discriminate.
Defined.

(** X13.  The same for a local file event, where the id of a removal is
    computed by the watcher's own [generateKnowledgeId]: it is the id under
    which the extractor's item is stored. *)
Theorem handleFileEvent_ids_agree (Date : Type) (host : Host)
    (relative : jsstring -> jsstring -> jsstring) (act : action)
    (repo : LocalFileWatcher.LocalRepoConfig) (filePath : jsstring)
    (read : result jsstring) (stat : result Date)
    (item : KnowledgeItem.t Date) :
  LocalFileWatcher.handleFileEvent host relative act repo filePath read stat
  = match act with
    | modified => UpdateKnowledge item
    | _ => AddKnowledge item
    end ->
  act <> removed ->
  (forall (read' : result jsstring) (stat' : result Date),
     LocalFileWatcher.handleFileEvent host relative removed repo filePath
       read' stat'
     = RemoveKnowledge (KnowledgeItem.id item))
  /\ LocalFileWatcher.handleFileEvent host relative added repo filePath
       read stat = AddKnowledge item
  /\ LocalFileWatcher.handleFileEvent host relative modified repo filePath
       read stat = UpdateKnowledge item.
Proof.
  unfold LocalFileWatcher.handleFileEvent. intros H Hact.
  destruct (shouldProcessFile defaultConfig _) as [[|] | e];
    try (destruct act; discriminate).
  assert (Hitem : exists content mtime,
             read = Ok content /\ stat = Ok mtime
             /\ extractKnowledge host
                  {| FileInfo.repository := LocalFileWatcher.name repo;
                     FileInfo.filePath :=
                       relative (LocalFileWatcher.path repo) filePath;
                     FileInfo.content := content;
                     FileInfo.lastModified := mtime |}
                = Ok (Some item)).
  { destruct act; [| | congruence];
      (destruct read as [content | e]; [| discriminate];
       destruct stat as [mtime | e]; [| discriminate];
       destruct (extractKnowledge host _) as [[k |] | e] eqn:E;
       try discriminate H; injection H as ->;
       exists content, mtime; split; [reflexivity |];
       split; [reflexivity | exact E]). }
  destruct Hitem as (content & mtime & -> & -> & Hextract).
  rewrite Hextract. split; [| split; reflexivity].
  intros _ _. f_equal.
  unfold extractKnowledge in Hextract.
  apply bind_ok in Hextract as (eligible & _ & Hextract).
  destruct eligible; cbn [negb] in Hextract; [| discriminate].
  apply bind_ok in Hextract as (analysis & _ & Hextract).
  apply bind_ok in Hextract as (tags & _ & Hextract).
  injection Hextract as <-. reflexivity.
Qed.

Lemma handleFileEvent_ids_agree_witness :
  exists item : KnowledgeItem.t N,
    LocalFileWatcher.handleFileEvent Example.host Example.relative added
      Example.localRepo (js "src/a.js") (Ok (js "x = 1;")) (Ok 0%N)
    = AddKnowledge item
    /\ LocalFileWatcher.handleFileEvent Example.host Example.relative removed
         Example.localRepo (js "src/a.js") (Throw TypeError)
         (Throw TypeError : result N)
       = RemoveKnowledge (KnowledgeItem.id item).
Proof.
  eexists.
  assert (E : LocalFileWatcher.handleFileEvent Example.host Example.relative
                added Example.localRepo (js "src/a.js") (Ok (js "x = 1;"))
                (Ok 0%N) = AddKnowledge _)
    by (vm_compute; reflexivity).
  split; [exact E |].
  apply (handleFileEvent_ids_agree N Example.host Example.relative added
           Example.localRepo (js "src/a.js") (Ok (js "x = 1;")) (Ok 0%N)
           _ E).
  discriminate.
Defined.

(** ** Eligible paths *)

Lemma matches_suffix r : forall x y,
  matches r x y -> exists w, fst x = w ++ fst y.
Proof.
  induction r as [| p | a IHa b IHb | a IHa b IHb | g a IHa | i a IHa];
    intros x y H; cbn [matches] in H.
  - subst. exists []. reflexivity.
  - destruct H as (ch & Hx & _ & _). exists [ch]. exact Hx.
  - destruct H as (m & Ha & Hb).
    apply IHa in Ha as [w1 H1]. apply IHb in Hb as [w2 H2].
    exists (w1 ++ w2). rewrite H1, H2, app_assoc. reflexivity.
  - destruct H as [H | H]; eauto.
  - induction H as [x | x y z Hxy _ [w2 H2]].
    + exists []. reflexivity.
    + apply IHa in Hxy as [w1 H1]. exists (w1 ++ w2).
      rewrite H1, H2, app_assoc. reflexivity.
  - destruct H as (m & Ha & ->). apply IHa in Ha. exact Ha.
Qed.

(** A match of a pattern that needs a character reads that character. *)
Lemma matches_needs c r : forall x y,
  matches r x y -> needs c r ->
  exists w, fst x = w ++ fst y /\ In c w.
Proof.
  induction r as [| p | a IHa b IHb | a IHa b IHb | g a IHa | i a IHa];
    intros x y H Hneed; cbn [matches needs] in *; try contradiction.
  - destruct H as (ch & Hx & Hp & _). exists [ch].
    split; [exact Hx |]. left. apply Hneed. exact Hp.
  - destruct H as (m & Ha & Hb). destruct Hneed as [Hneed | Hneed].
    + destruct (IHa _ _ Ha Hneed) as (w1 & H1 & Hin).
      apply matches_suffix in Hb as [w2 H2].
      exists (w1 ++ w2). rewrite H1, H2, app_assoc.
      split; [reflexivity |]. apply in_or_app. left. exact Hin.
    + destruct (IHb _ _ Hb Hneed) as (w2 & H2 & Hin).
      apply matches_suffix in Ha as [w1 H1].
      exists (w1 ++ w2). rewrite H1, H2, app_assoc.
      split; [reflexivity |]. apply in_or_app. right. exact Hin.
  - destruct Hneed as [Hna Hnb]. destruct H as [H | H]; eauto.
  - destruct H as (m & Ha & ->). exact (IHa _ _ Ha Hneed).
Qed.

Lemma test_needs c r s : test r s = true -> needs c r -> In c s.
Proof.
  unfold test. destruct (search r s) as [m |] eqn:E; [| discriminate].
  intros _ Hneed. apply search_found in E as (t & Ht & Hs & _).
  apply exec_at_matches in Ht.
  destruct (matches_needs c r _ _ Ht Hneed) as (w & Hw & Hin).
  cbn [fst] in Hw. subst s. rewrite Hw.
  apply in_or_app. right. apply in_or_app. left. exact Hin.
Qed.

(** Every include pattern of the constructor compiles to a pattern that
    needs a slash. *)
Lemma includePatterns_need_slash :
  Forall (fun pattern =>
            exists re, construct (regexPattern pattern) false = Ok re
                       /\ needs (chr "/") re)
         (includePatterns defaultConfig).
Proof.
  repeat constructor;
    (eexists; split; [vm_compute; reflexivity |];
     cbn [needs]; right; right; left;
     intros x H; symmetry; apply N.eqb_eq; exact H).
Qed.

(** X14.  A path without a slash is never eligible: every include pattern
    starts with [**/], which the rewriting turns into a pattern that reads a
    slash, so a file at the root of a repository, named by its bare file
    name, is rejected. *)
Theorem shouldProcessFile_needs_slash (filePath : jsstring) :
  ~ In (chr "/") filePath ->
  shouldProcessFile defaultConfig filePath = Ok false.
Proof.
  intros Hno. unfold shouldProcessFile.
  destruct (matchesAny_total filePath (excludePatterns defaultConfig))
    as [ex Hex]; [vm_compute; reflexivity |].
  rewrite Hex. cbn [bind]. destruct ex; [reflexivity |].
  rewrite matchesAny_false; [reflexivity |].
  pose proof includePatterns_need_slash as H.
  revert H. apply Forall_impl. intros pattern (re & Hre & Hneed).
  unfold matchesPattern. rewrite Hre. cbn [bind].
  destruct (test re filePath) eqn:E; [| reflexivity].
  exfalso. apply Hno. exact (test_needs _ _ _ E Hneed).
Qed.

Lemma shouldProcessFile_needs_slash_witness :
  shouldProcessFile defaultConfig (js "index.js") = Ok false.
Proof.
  apply (shouldProcessFile_needs_slash (js "index.js")).
  intros H. vm_compute in H. intuition discriminate.
Defined.

(** ** Tags *)

Lemma In_tagIf x b tag : In x (tagIf b tag) <-> b = true /\ x = js tag.
Proof.
  unfold tagIf. destruct b; simpl.
  - split; [intros [<- | []]; auto | intros [_ ->]; auto].
  - split; [contradiction | intros [H _]; discriminate H].
Qed.

Lemma lookup_known key table v :
  lookup key table = Some v -> In v (List.map snd table).
Proof.
  induction table as [| [k w] more IH]; simpl; [discriminate |].
  destruct (eqs key k); [intros H; injection H as ->; auto | auto].
Qed.

Lemma getFileType_known host filePath :
  In (getFileType host filePath) (List.map snd typeMap ++ [js "unknown"]).
Proof.
  unfold getFileType.
  destruct (lookup _ typeMap) as [v |] eqn:E.
  - pose proof (lookup_known _ _ _ E) as Hin.
    assert (Hv : truthy (Some v) = true).
    { revert Hin. generalize v. apply Forall_forall.
      repeat constructor. }
    unfold orElse. rewrite Hv. apply in_or_app. left. exact Hin.
  - apply in_or_app. right. left. reflexivity.
Qed.

Lemma detectFrameworkIn_known content table name :
  detectFrameworkIn content table = Ok (Some name) ->
  In name (List.map fst table).
Proof.
  induction table as [| [n patterns] more IH]; cbn [detectFrameworkIn];
    [discriminate |].
  intros H. apply bind_ok in H as [hit [_ H]].
  destruct hit; [injection H as ->; left; reflexivity | right; auto].
Qed.

Lemma dependencyTags_known deps : forall tags,
  dependencyTags deps = Ok tags ->
  Forall (fun tag => In tag (List.map js ["react"; "express"; "typescript"]%string))
         tags.
Proof.
  induction deps as [| [dep |] more IH]; cbn [dependencyTags]; intros tags H.
  - injection H as <-. constructor.
  - apply bind_ok in H as [later [Hlater H]]. injection H as <-.
    apply Forall_app. split; [| auto].
    apply Forall_forall. intros x Hx.
    rewrite !in_app_iff, !In_tagIf in Hx.
    destruct Hx as [[_ ->] | [[_ ->] | [_ ->]]]; simpl; tauto.
  - discriminate H.
Qed.

(** What [analyzeContent] puts in its record. *)
Lemma analyzeContent_fields content fileType analysis :
  analyzeContent content fileType = Ok analysis ->
  Analysis.language analysis = fileType
  /\ detectFramework content = Ok (Analysis.framework analysis)
  /\ Analysis.dependencies analysis = extractDependencies content
  /\ Analysis.functions analysis = extractFunctions content
  /\ Analysis.classes analysis = extractClasses content
  /\ Analysis.complexity analysis = calculateComplexity content.
Proof.
  unfold analyzeContent. intros H.
  apply bind_ok in H as [framework [Hfw H]].
  apply bind_ok in H as [summary [_ H]].
  injection H as <-. cbn. repeat split; try reflexivity. exact Hfw.
Qed.

(** What a non-null result of [extractKnowledge] records about the
    analysis. *)
Lemma extractKnowledge_metadata (Date : Type) (host : Host)
    (fileInfo : FileInfo.t Date) (item : KnowledgeItem.t Date) :
  extractKnowledge host fileInfo = Ok (Some item) ->
  exists analysis,
    analyzeContent (FileInfo.content fileInfo)
      (getFileType host (FileInfo.filePath fileInfo)) = Ok analysis
    /\ generateTags (FileInfo.filePath fileInfo) analysis
       = Ok (Metadata.tags (KnowledgeItem.metadata item))
    /\ Metadata.language (KnowledgeItem.metadata item)
       = Analysis.language analysis
    /\ Metadata.fileType (KnowledgeItem.metadata item)
       = getFileType host (FileInfo.filePath fileInfo)
    /\ KnowledgeItem.content item
       = prepareContent (FileInfo.content fileInfo) analysis
           (FileInfo.filePath fileInfo).
Proof.
  unfold extractKnowledge. intros H.
  apply bind_ok in H as [eligible [Helig H]].
  destruct eligible; simpl in H; [| discriminate H].
  apply bind_ok in H as [analysis [Han H]].
  apply bind_ok in H as [tags [Htags H]].
  injection H as <-. simpl.
  exists analysis. repeat split; assumption.
Qed.

Lemma nonempty_ltb {A} (xs : list A) :
  Nat.ltb 0 (length xs) = true <-> xs <> [].
Proof.
  destruct xs; simpl.
  - split; [discriminate | intros H; contradiction H; reflexivity].
  - split; [discriminate | reflexivity].
Qed.

(** X15.  The tags of an item are distinct and come from a closed
    vocabulary: the eight path words, the language names, the framework
    names, the three dependency words and the four content words.  The
    language is always among them, and the content words say what the
    analysis found: [simple] exactly when the complexity is at most 3,
    [complex] exactly when it exceeds 10, [functions] and [classes] exactly
    when a function or a class was extracted. *)
Theorem tags_vocabulary_and_meaning (Date : Type) (host : Host)
    (fileInfo : FileInfo.t Date) (item : KnowledgeItem.t Date) :
  extractKnowledge host fileInfo = Ok (Some item) ->
  let tags := Metadata.tags (KnowledgeItem.metadata item) in
  let content := FileInfo.content fileInfo in
  NoDup tags
  /\ Forall (fun tag => In tag (sourceTags ++ contentWords)) tags
  /\ In (Metadata.language (KnowledgeItem.metadata item)) tags
  /\ (In (js "simple") tags <-> calculateComplexity content <= 3)
  /\ (In (js "complex") tags <-> 10 < calculateComplexity content)
  /\ (In (js "functions") tags <-> extractFunctions content <> [])
  /\ (In (js "classes") tags <-> extractClasses content <> []).
Proof.
  intros H tags content.
  apply extractKnowledge_metadata in H
    as (analysis & Han & Htags & Hlang & _ & _).
  fold tags in Htags. fold content in Han. clearbody tags content.
  apply analyzeContent_fields in Han
    as (Hl & Hfw & _ & Hfun & Hcls & Hcx).
  rewrite Hlang. clear Hlang.
  pose proof (getFileType_known host (FileInfo.filePath fileInfo)) as Hknown.
  rewrite <- Hl in Hknown.
  assert (Hlt : truthy (Some (Analysis.language analysis)) = true).
  { revert Hknown. generalize (Analysis.language analysis).
    apply Forall_forall. repeat constructor. }
  assert (Hfwk : forall name, Analysis.framework analysis = Some name ->
                              In name (List.map fst frameworks)).
  { intros name E. rewrite E in Hfw.
    exact (detectFrameworkIn_known _ _ _ Hfw). }
  unfold generateTags in Htags. rewrite Hlt in Htags.
  apply bind_ok in Htags as [depTags [Hdep Htags]].
  apply dependencyTags_known in Hdep.
  injection Htags as Htags.
  rewrite Hfun, Hcls, Hcx in Htags.
  set (score := calculateComplexity content) in *.
  match type of Htags with uniq_by eqs [] ?L = _ => set (raw := L) in * end.
  assert (Hin : forall x, In x tags <-> In x raw).
  { intros x. rewrite <- Htags. split; [apply uniq_by_In |].
    intros Hx. destruct (uniq_by_complete eqs eqs_eq raw [] x Hx) as [[] | Hy].
    exact Hy. }
  assert (Hraw : forall x, In x raw ->
            In x sourceTags
            \/ (x = js "functions" /\ extractFunctions content <> [])
            \/ (x = js "classes" /\ extractClasses content <> [])
            \/ (x = js "complex" /\ 10 < score)
            \/ (x = js "simple" /\ score <= 3)).
  { intros x Hx. unfold raw in Hx. unfold sourceTags. rewrite !in_app_iff.
    apply in_app_or in Hx as [Hx | Hx].
    - left. left. rewrite !in_app_iff, !In_tagIf in Hx.
      repeat (destruct Hx as [[_ ->] | Hx]; [simpl; tauto |]).
      destruct Hx as [_ ->]. simpl; tauto.
    - destruct Hx as [<- | Hx].
      { left. apply in_app_iff in Hknown. tauto. }
      apply in_app_or in Hx as [Hx | Hx].
      { destruct (Analysis.framework analysis) as [[| c name] |] eqn:E;
          simpl in Hx; try contradiction.
        destruct Hx as [<- | []]. left. right. right. right. left.
        apply Hfwk. reflexivity. }
      apply in_app_or in Hx as [Hx | Hx].
      + rewrite !in_app_iff, !In_tagIf in Hx.
        rewrite !nonempty_ltb, Nat.ltb_lt, Nat.leb_le in Hx. tauto.
      + left. right. right. right. right.
        revert x Hx. apply Forall_forall. exact Hdep. }
  assert (Hback : forall x,
            (x = js "functions" /\ extractFunctions content <> [])
            \/ (x = js "classes" /\ extractClasses content <> [])
            \/ (x = js "complex" /\ 10 < score)
            \/ (x = js "simple" /\ score <= 3) -> In x raw).
  { intros x Hx. unfold raw. apply in_or_app. right. right.
    apply in_or_app. right. apply in_or_app. left.
    rewrite !in_app_iff, !In_tagIf.
    rewrite !nonempty_ltb, Nat.ltb_lt, Nat.leb_le. tauto. }
  assert (Hno : forall x, existsb (eqs x) sourceTags = false ->
                          ~ In x sourceTags).
  { intros x Hx Hin'.
    assert (Hy : existsb (eqs x) sourceTags = true).
    { apply existsb_exists. exists x.
      split; [exact Hin' | apply eqs_eq; reflexivity]. }
    rewrite Hy in Hx. discriminate Hx. }
  split; [rewrite <- Htags; apply (uniq_by_NoDup eqs eqs_eq raw []) |].
  split.
  { apply Forall_forall. intros x Hx. apply Hin, Hraw in Hx.
    apply in_or_app. unfold contentWords.
    destruct Hx as [Hx | [[-> _] | [[-> _] | [[-> _] | [-> _]]]]];
      [left; exact Hx | right; simpl; tauto ..]. }
  split.
  { apply Hin. unfold raw. apply in_or_app. right. left. reflexivity. }
  assert (Hcontent : forall x, In x contentWords ->
            (In x tags <->
             (x = js "functions" /\ extractFunctions content <> [])
             \/ (x = js "classes" /\ extractClasses content <> [])
             \/ (x = js "complex" /\ 10 < score)
             \/ (x = js "simple" /\ score <= 3))).
  { intros x Hx. split.
    - intros Ht. apply Hin, Hraw in Ht. destruct Ht as [Ht | Ht]; [| exact Ht].
      exfalso. revert Ht. apply Hno.
      revert x Hx. apply Forall_forall. repeat constructor.
    - intros Ht. apply Hin, Hback, Ht. }
  repeat split.
  all: try (intros Ht; apply Hcontent in Ht; [| simpl; tauto];
            destruct Ht as [[E Ht] | [[E Ht] | [[E Ht] | [E Ht]]]];
            solve [exact Ht | discriminate E]).
  all: intros Ht; apply Hcontent; [simpl; tauto | tauto].
Qed.

Lemma tags_vocabulary_and_meaning_witness :
  exists item,
    extractKnowledge Example.host
      (Example.file (js "acme/app") (js "src/a.js") (js "x = 1;" ++ nl))
    = Ok (Some item)
    /\ In (js "simple") (Metadata.tags (KnowledgeItem.metadata item)).
Proof.
  eexists.
  assert (E : extractKnowledge Example.host
                (Example.file (js "acme/app") (js "src/a.js")
                              (js "x = 1;" ++ nl)) = Ok (Some _))
    by (vm_compute; reflexivity).
  split; [exact E |].
  apply (tags_vocabulary_and_meaning _ _ _ _ E).
  vm_compute. lia.
Defined.

(** ** Framework detection ignores ASCII case *)

Lemma matched_orelse {A} (a b : option A) :
  matched (match a with Some o => Some o | None => b end)
  = matched a || matched b.
Proof. destruct a; reflexivity. Qed.

Lemma upcase_idempotent c : upcase (upcase c) = upcase c.
Proof.
  unfold upcase. destruct (is_lower c) eqn:E; [| rewrite E; reflexivity].
  replace (is_lower (c - 32)%N) with false; [reflexivity |].
  symmetry. unfold is_lower in *.
  apply andb_true_iff in E as [E1 E2].
  apply N.leb_le in E1, E2. apply andb_false_iff. left.
  apply N.leb_gt. lia.
Qed.

Lemma upcase_downcase c : upcase (downcase c) = upcase c.
Proof.
  unfold downcase, upcase, is_upper, is_lower.
  destruct (N.leb 65%N c && N.leb c 90%N) eqn:E.
  - apply andb_true_iff in E as [E1 E2]. apply N.leb_le in E1, E2.
    replace (N.leb 97%N (c + 32)%N && N.leb (c + 32)%N 122%N) with true
      by (symmetry; apply andb_true_iff; split; apply N.leb_le; lia).
    replace (N.leb 97%N c && N.leb c 122%N) with false
      by (symmetry; apply andb_false_iff; left; apply N.leb_gt; lia).
    lia.
  - reflexivity.
Qed.

Lemma dot_caseBlind c : dot (upcase c) = dot c.
Proof.
  unfold upcase. destruct (is_lower c) eqn:E; [| reflexivity].
  unfold is_lower in E. apply andb_true_iff in E as [E1 E2].
  apply N.leb_le in E1, E2.
  assert (Hno : forall x, (65 <= x <= 122)%N -> dot x = true).
  { intros x Hx. unfold dot, is_line_terminator, mem, eqc. cbn [existsb].
    repeat match goal with
           | |- context [N.eqb x ?n] =>
               replace (N.eqb x n) with false
                 by (symmetry; apply N.eqb_neq; lia)
           end.
    reflexivity. }
  rewrite !Hno by lia. reflexivity.
Qed.

Lemma parse_atom_caseBlind s a t :
  parse_atom true s = Some (a, t) -> caseBlind a.
Proof.
  unfold parse_atom. destruct s as [| x s]; [discriminate |].
  destruct (eqc x (chr ".")).
  { intros H. injection H as <- _. exact dot_caseBlind. }
  destruct (eqc x (chr "[")).
  - assert (Hb : forall negated body,
              match class_members body with
              | Some (ms, t0) =>
                  if true && negb (forallb is_ascii ms) then None
                  else Some (Class (class_pred true negated ms), t0)
              | None => None
              end = Some (a, t) -> caseBlind a).
    { intros negated body.
      destruct (class_members body) as [[ms t0] |]; [| discriminate].
      destruct (true && negb (forallb is_ascii ms)); [discriminate |].
      intros H. injection H as <- _.
      intros c. unfold class_pred. rewrite upcase_idempotent. reflexivity. }
    destruct s as [| y s']; [apply Hb |].
    destruct (eqc y (chr "^")); apply Hb.
  - unfold atom_char. destruct (syntax_char x); [discriminate |].
    destruct (is_ascii x); [| discriminate].
    intros H. injection H as <- _.
    intros c. cbv beta. rewrite upcase_idempotent. reflexivity.
Qed.

Lemma parse_terms_caseBlind : forall fuel s r,
  parse_terms fuel true s = Some r -> caseBlind r.
Proof.
  induction fuel as [| fuel IH]; intros s r; cbn [parse_terms];
    [discriminate |].
  destruct s as [| x s]; [intros H; injection H as <-; exact I |].
  destruct (parse_atom true (x :: s)) as [[a t] |] eqn:E; [| discriminate].
  apply parse_atom_caseBlind in E.
  destruct t as [| y t1].
  - destruct (parse_terms fuel true []) as [r' |] eqn:Er; [| discriminate].
    intros H. injection H as <-. split; [exact E | exact (IH _ _ Er)].
  - destruct (eqc y (chr "*")).
    + destruct (parse_terms fuel true t1) as [r' |] eqn:Er; [| discriminate].
      intros H. injection H as <-. split; [exact E | exact (IH _ _ Er)].
    + destruct (parse_terms fuel true (y :: t1)) as [r' |] eqn:Er;
        [| discriminate].
      intros H. injection H as <-. split; [exact E | exact (IH _ _ Er)].
Qed.

Section Recase.

Variable f : char -> char.
Hypothesis f_case : forall c, upcase (f c) = upcase c.

(** A pattern whose classes ignore case matches a text and its recased copy
    alike. *)
Lemma rmatch_recase (r : regex) :
  caseBlind r ->
  forall (k1 k2 : cont) s c1 c2,
    (forall s' d1 d2, matched (k1 (List.map f s') d1) = matched (k2 s' d2)) ->
    matched (rmatch r k1 (List.map f s) c1) = matched (rmatch r k2 s c2).
Proof.
  induction r as [| p | a IHa b IHb | a IHa b IHb | g a IHa | i a IHa];
    cbn [caseBlind rmatch]; intros Hr k1 k2 s c1 c2 Hk.
  - apply Hk.
  - destruct s as [| x s]; [reflexivity |]. cbn [List.map].
    replace (p (f x)) with (p x)
      by (rewrite <- (Hr (f x)), f_case, Hr; reflexivity).
    destruct (p x); [apply Hk | reflexivity].
  - destruct Hr as [Ha Hb]. apply (IHa Ha). intros s' d1 d2.
    apply (IHb Hb). exact Hk.
  - destruct Hr as [Ha Hb]. rewrite !matched_orelse.
    rewrite (IHa Ha k1 k2 s c1 c2 Hk), (IHb Hb k1 k2 s c1 c2 Hk).
    reflexivity.
  - rewrite length_map. generalize (length s) as fuel. intros fuel.
    revert s c1 c2. induction fuel as [| fuel IH]; intros s c1 c2;
      cbn [star_loop]; [apply Hk |].
    assert (Hagain :
      matched (rmatch a (fun s' c' =>
                 if Nat.ltb (length s') (length (List.map f s))
                 then star_loop g (rmatch a) fuel k1 s' c' else None)
               (List.map f s) c1)
      = matched (rmatch a (fun s' c' =>
                 if Nat.ltb (length s') (length s)
                 then star_loop g (rmatch a) fuel k2 s' c' else None) s c2)).
    { apply (IHa Hr). intros s' d1 d2. cbv beta. rewrite !length_map.
      destruct (Nat.ltb (length s') (length s)); [apply IH | reflexivity]. }
    destruct g; rewrite !matched_orelse, Hagain, (Hk s c1 c2); reflexivity.
  - apply (IHa Hr). intros s' d1 d2. cbv beta. apply Hk.
Qed.

Lemma search_matched r s :
  matched (search r s)
  = matched (exec_at r s)
    || match s with [] => false | _ :: t => matched (search r t) end.
Proof.
  destruct s as [| x t]; cbn [search].
  - destruct (exec_at r []) as [[s' c] |]; reflexivity.
  - destruct (exec_at r (x :: t)) as [[s' c] |]; [reflexivity |].
    destruct (search r t); reflexivity.
Qed.

Lemma test_recase r s : caseBlind r -> test r (List.map f s) = test r s.
Proof.
  intros Hr. change (matched (search r (List.map f s)) = matched (search r s)).
  induction s as [| x t IH].
  - reflexivity.
  - rewrite (search_matched r (x :: t)),
            (search_matched r (List.map f (x :: t))).
    cbn [List.map]. rewrite IH. f_equal.
    apply (rmatch_recase r Hr accept accept (x :: t) [] []). reflexivity.
Qed.

Lemma signatureFires_recase content patterns :
  signatureFires (List.map f content) patterns
  = signatureFires content patterns.
Proof.
  induction patterns as [| pattern more IH]; cbn [signatureFires];
    [reflexivity |].
  unfold construct.
  destruct (parse_terms (S (length pattern)) true pattern) as [re |] eqn:E;
    [| reflexivity].
  cbn [bind]. apply parse_terms_caseBlind in E.
  rewrite (test_recase re content E), IH. reflexivity.
Qed.

Lemma detectFrameworkIn_recase content table :
  detectFrameworkIn (List.map f content) table
  = detectFrameworkIn content table.
Proof.
  induction table as [| [name patterns] more IH]; cbn [detectFrameworkIn];
    [reflexivity |].
  rewrite signatureFires_recase, IH. reflexivity.
Qed.

End Recase.

(** X16.  Framework detection does not see the ASCII case of the content:
    the signatures are compiled with the [i] flag, so a text and any copy of
    it whose letters differ only in case are given the same framework. *)
Theorem detectFramework_ignores_case (f : char -> char)
    (content : jsstring) :
  (forall c, upcase (f c) = upcase c) ->
  detectFramework (List.map f content) = detectFramework content.
Proof.
  intros Hf. unfold detectFramework. apply detectFrameworkIn_recase. exact Hf.
Qed.

Lemma detectFramework_ignores_case_witness :
  detectFramework (List.map downcase (js "IMPORT X FROM 'REACT'"))
  = detectFramework (js "IMPORT X FROM 'REACT'").
Proof.
  apply (detectFramework_ignores_case downcase (js "IMPORT X FROM 'REACT'")).
  exact upcase_downcase.
Defined.

(** ** Globs are accepted *)

Lemma search_ext r1 r2 :
  (forall s, exec_at r1 s = exec_at r2 s) ->
  forall s, search r1 s = search r2 s.
Proof.
  intros Hexec. induction s as [| x s IH]; cbn [search]; rewrite Hexec.
  - reflexivity.
  - rewrite IH. reflexivity.
Qed.

Lemma replaceAll_from_ext r1 r2 by_ :
  (forall s, exec_at r1 s = exec_at r2 s) ->
  forall fuel s, replaceAll_from fuel r1 by_ s = replaceAll_from fuel r2 by_ s.
Proof.
  intros Hexec. induction fuel as [| fuel IH]; intros s; cbn [replaceAll_from];
    [reflexivity |].
  rewrite (search_ext r1 r2 Hexec). destruct (search r2 s) as [m |];
    [| reflexivity].
  do 2 f_equal. destruct (empty m); [| apply IH].
  destruct (rest m); [reflexivity | rewrite IH; reflexivity].
Qed.

(** Replacing a one-character literal rewrites the text character by
    character. *)
Lemma replaceAll_char (c0 : char) (by_ s : jsstring) :
  replaceAll (lit [c0]) by_ s
  = flat_map (fun c => if eqc c0 c then by_ else [c]) s.
Proof.
  unfold replaceAll.
  rewrite (replaceAll_from_ext (lit [c0]) (Chr c0)) by reflexivity.
  apply replaceAll_from_class. lia.
Qed.

(** A replacement writes only characters of the text and of the
    replacement. *)
Lemma replaceAll_alphabet (P : char -> Prop) r by_ :
  Forall P by_ ->
  forall fuel s, Forall P s -> Forall P (replaceAll_from fuel r by_ s).
Proof.
  intros Hby. induction fuel as [| fuel IH]; intros s Hs;
    cbn [replaceAll_from]; [exact Hs |].
  destruct (search r s) as [m |] eqn:E; [| exact Hs].
  apply search_found in E as (t & Ht & -> & _).
  apply exec_at_matches, matches_suffix in Ht as [w Hw]. cbn [fst] in Hw.
  subst t. apply Forall_app in Hs as [Hpre Hs].
  apply Forall_app in Hs as [_ Hrest].
  apply Forall_app. split; [exact Hpre |].
  apply Forall_app. split; [exact Hby |].
  destruct (empty m); [| apply IH; exact Hrest].
  destruct (rest m) as [| x t]; [constructor |].
  inversion Hrest; subst. constructor; [assumption | apply IH; assumption].
Qed.

Lemma flat_map_compose {A B C} (f : B -> list C) (g : A -> list B) l :
  flat_map f (flat_map g l) = flat_map (fun x => flat_map f (g x)) l.
Proof.
  induction l as [| x l IH]; simpl; [reflexivity |].
  rewrite flat_map_app, IH. reflexivity.
Qed.

Lemma regexPattern_atoms pattern :
  Forall (fun c => globChar c = true) pattern ->
  exists u, Forall (fun c => globChar c = true) u
            /\ regexPattern pattern = flat_map globAtom u.
Proof.
  intros Hglob.
  exists (replaceAll (lit (js "**")) (js ".*") pattern). split.
  - apply replaceAll_alphabet; [repeat constructor | exact Hglob].
  - unfold regexPattern.
    change (js "?") with [63%N]. change (js "*") with [42%N].
    rewrite !replaceAll_char, flat_map_compose. reflexivity.
Qed.

Lemma globAtom_cases c :
  globChar c = true ->
  (c = 42%N /\ globAtom c = js "[^/]*")
  \/ ((c = 63%N \/ c = 46%N) /\ globAtom c = js ".")
  \/ (syntax_char c = false /\ globAtom c = [c]).
Proof.
  intros Hc. unfold globAtom.
  destruct (eqc 42%N c) eqn:E1.
  { left. apply N.eqb_eq in E1. subst c. split; reflexivity. }
  destruct (eqc 63%N c) eqn:E2.
  { right. left. apply N.eqb_eq in E2. subst c. split; [left |]; reflexivity. }
  cbn [flat_map]. rewrite E2.
  destruct (eqc 46%N c) eqn:E3.
  { right. left. apply N.eqb_eq in E3. subst c. split; [right |]; reflexivity. }
  right. right. split; [| reflexivity].
  unfold globChar, mem in Hc. cbn in Hc. unfold eqc in *.
  rewrite (N.eqb_sym c 42%N), (N.eqb_sym c 63%N), (N.eqb_sym c 46%N) in Hc.
  rewrite E1, E2, E3 in Hc. cbn in Hc.
  rewrite orb_false_r in Hc. apply negb_true_iff in Hc.
  unfold syntax_char, mem, eqc. cbn.
  rewrite (N.eqb_sym c 42%N), (N.eqb_sym c 63%N), (N.eqb_sym c 46%N).
  rewrite E1, E2, E3. cbn. exact Hc.
Qed.

Lemma plain_char c :
  syntax_char c = false ->
  eqc c (chr ".") = false /\ eqc c (chr "[") = false
  /\ eqc c (chr "*") = false.
Proof.
  unfold syntax_char, mem. cbn [js list_ascii_of_string List.map existsb].
  intros H. repeat (apply orb_false_iff in H as [? H]). auto.
Qed.

(** The source of a glob never has a star where a quantifier is looked
    for. *)
Lemma globAtoms_head u :
  Forall (fun c => globChar c = true) u ->
  match flat_map globAtom u with
  | y :: _ => eqc y (chr "*") = false
  | [] => True
  end.
Proof.
  intros [| c u' Hc _]; [exact I |]. cbn [flat_map].
  destruct (globAtom_cases c Hc) as [[_ ->] | [[_ ->] | [Hplain ->]]];
    [reflexivity | reflexivity |].
  apply plain_char in Hplain. cbn [app]. tauto.
Qed.

Lemma parse_terms_atom fuel (x : char) (a : regex) tail :
  parse_atom false (x :: tail) = Some (a, tail) ->
  match tail with y :: _ => eqc y (chr "*") = false | [] => True end ->
  parse_terms (S fuel) false (x :: tail)
  = match parse_terms fuel false tail with
    | Some r => Some (Seq a r)
    | None => None
    end.
Proof.
  intros Hatom Hhead. cbn [parse_terms]. rewrite Hatom.
  destruct tail as [| y t]; [reflexivity |]. rewrite Hhead. reflexivity.
Qed.

Lemma parse_terms_globAtoms u :
  Forall (fun c => globChar c = true) u ->
  forall fuel, length (flat_map globAtom u) < fuel ->
  exists r, parse_terms fuel false (flat_map globAtom u) = Some r.
Proof.
  induction 1 as [| c u' Hc Hu' IH]; intros fuel Hfuel.
  - destruct fuel; [simpl in Hfuel; lia |]. eexists. reflexivity.
  - pose proof (globAtoms_head u' Hu') as Hhead.
    cbn [flat_map] in *. rewrite length_app in Hfuel.
    destruct fuel as [| fuel]; [lia |].
    destruct (globAtom_cases c Hc) as [[_ E] | [[_ E] | [Hplain E]]];
      rewrite E in *; clear E.
    + destruct (IH fuel) as [r Hr]; [simpl in Hfuel; lia |].
      eexists. cbn. rewrite Hr. reflexivity.
    + destruct (IH fuel) as [r Hr]; [simpl in Hfuel; lia |].
      eexists. cbn [js list_ascii_of_string List.map app].
      rewrite (parse_terms_atom fuel _ (Class dot)), Hr;
        [reflexivity | reflexivity | exact Hhead].
    + destruct (IH fuel) as [r Hr]; [simpl in Hfuel; lia |].
      eexists. cbn [app].
      rewrite (parse_terms_atom fuel _ (Chr c)), Hr;
        [reflexivity | | exact Hhead].
      pose proof (plain_char c Hplain) as (H1 & H2 & _).
      unfold parse_atom, atom_char. rewrite H1, H2, Hplain. reflexivity.
Qed.

Lemma construct_glob pattern :
  forallb globChar pattern = true ->
  exists re, construct (regexPattern pattern) false = Ok re.
Proof.
  intros Hglob.
  assert (H : Forall (fun c => globChar c = true) pattern).
  { apply Forall_forall. apply forallb_forall. exact Hglob. }
  apply regexPattern_atoms in H as (u & Hu & ->).
  unfold construct.
  destruct (parse_terms_globAtoms u Hu (S (length (flat_map globAtom u))))
    as [r ->]; [lia |].
  eexists. reflexivity.
Qed.

Lemma compileAll_total patterns :
  Forall (fun pattern => forallb globChar pattern = true) patterns ->
  exists res,
    LocalFileWatcher.compileAll patterns = Ok res
    /\ Forall2 (fun pattern re =>
                  construct (regexPattern pattern) false = Ok re)
               patterns res.
Proof.
  induction 1 as [| pattern more Hp _ [res [IH Hall]]];
    cbn [LocalFileWatcher.compileAll].
  - eexists. split; [reflexivity | constructor].
  - destruct (construct_glob pattern Hp) as [re Hre]. rewrite Hre, IH.
    cbn [bind]. eexists. split; [reflexivity |].
    constructor; [exact Hre | exact Hall].
Qed.

Lemma defaultIgnored_globs :
  Forall (fun pattern => forallb globChar pattern = true)
         LocalFileWatcher.defaultIgnored.
Proof. apply Forall_forall. apply forallb_forall. vm_compute. reflexivity. Qed.

(** What [createIgnorePatterns] returns when every pattern compiles: one
    expression per pattern, in order, each testing a path as
    [matchesPattern] does with that pattern. *)
Lemma createIgnorePatterns_compiled excludePaths :
  Forall (fun pattern => forallb globChar pattern = true)
         (match excludePaths with Some l => l | None => [] end) ->
  exists ignored,
    LocalFileWatcher.createIgnorePatterns excludePaths = Ok ignored
    /\ Forall2 (fun pattern re =>
                  construct (regexPattern pattern) false = Ok re
                  /\ forall path,
                       matchesPattern path pattern = Ok (test re path))
               (LocalFileWatcher.defaultIgnored
                ++ match excludePaths with Some l => l | None => [] end)
               ignored.
Proof.
  intros Hglob. unfold LocalFileWatcher.createIgnorePatterns.
  destruct (compileAll_total
              (LocalFileWatcher.defaultIgnored
               ++ match excludePaths with Some l => l | None => [] end))
    as [res [Hres Hall]].
  - apply Forall_app. split; [exact defaultIgnored_globs | exact Hglob].
  - exists res. split; [exact Hres |].
    revert Hall. apply Forall2_impl. intros pattern re Hre.
    split; [exact Hre |]. intros path. unfold matchesPattern.
    rewrite Hre. reflexivity.
Qed.

(** X17.  A glob written with ordinary characters, [*], [?] and [.] always
    compiles: the three replacements turn it into a source the constructor
    accepts.  So [matchesPattern] returns on every such pattern and a loop
    over such patterns returns.  The local watcher's ignore list is then
    built whole, with or without configured paths: it holds, in order, the
    compiled expression of each of its nine own patterns and then of each
    configured one, and each expression tests a path as [matchesPattern]
    does with its pattern. *)
Theorem glob_patterns_accepted (filePath : jsstring)
    (patterns : list jsstring) :
  Forall (fun pattern => forallb globChar pattern = true) patterns ->
  Forall (fun pattern => exists hit, matchesPattern filePath pattern = Ok hit)
         patterns
  /\ (exists hit, matchesAny filePath patterns = Ok hit)
  /\ (exists ignored,
        LocalFileWatcher.createIgnorePatterns (Some patterns) = Ok ignored
        /\ length ignored = 9 + length patterns
        /\ Forall2 (fun pattern re =>
                      construct (regexPattern pattern) false = Ok re
                      /\ forall path,
                           matchesPattern path pattern = Ok (test re path))
                   (LocalFileWatcher.defaultIgnored ++ patterns) ignored)
  /\ (exists ignored,
        LocalFileWatcher.createIgnorePatterns None = Ok ignored
        /\ length ignored = 9
        /\ Forall2 (fun pattern re =>
                      construct (regexPattern pattern) false = Ok re
                      /\ forall path,
                           matchesPattern path pattern = Ok (test re path))
                   LocalFileWatcher.defaultIgnored ignored).
Proof.
  intros Hglob. split; [| split; [| split]].
  - revert Hglob. apply Forall_impl. intros pattern Hp.
    unfold matchesPattern. destruct (construct_glob pattern Hp) as [re ->].
    eexists. reflexivity.
  - apply matchesAny_total. apply forallb_forall. intros pattern Hin.
    unfold constructs.
    destruct (construct_glob pattern) as [re ->]; [| reflexivity].
    revert pattern Hin. apply Forall_forall. exact Hglob.
  - destruct (createIgnorePatterns_compiled (Some patterns) Hglob)
      as [ignored [Hres Hall]].
    exists ignored. split; [exact Hres |]. split; [| exact Hall].
    apply Forall2_length in Hall. rewrite <- Hall, length_app. reflexivity.
  - destruct (createIgnorePatterns_compiled None (Forall_nil _))
      as [ignored [Hres Hall]].
    rewrite app_nil_r in Hall.
    exists ignored. split; [exact Hres |]. split; [| exact Hall].
    apply Forall2_length in Hall. rewrite <- Hall. reflexivity.
Qed.

Lemma glob_patterns_accepted_witness :
  exists ignored,
    LocalFileWatcher.createIgnorePatterns (Some [js "docs/**"; js "*.tmp"])
    = Ok ignored
    /\ length ignored = 11
    /\ Forall2 (fun pattern re =>
                  construct (regexPattern pattern) false = Ok re
                  /\ forall path,
                       matchesPattern path pattern = Ok (test re path))
               (LocalFileWatcher.defaultIgnored ++ [js "docs/**"; js "*.tmp"])
               ignored.
Proof.
  apply (glob_patterns_accepted (js "src/a.js") [js "docs/**"; js "*.tmp"]).
  repeat constructor.
Defined.
